(** * Block_Push_Control: the push controllers' state machines

    A shallow embedding of [push_pid.py] (the proportional pusher) and
    [push_mpc.py] (the MPC pusher with re-engage lift), and the properties of
    their per-tick control flow: action clipping, the success and timeout
    guards, the stall guard, per-second error sampling, finish-time recording
    and the CSV record.

    Numbers.  The scripts compute with Python floats.  Here every float is an
    exact rational ([Q]): comparisons, clipping and the arithmetic of the
    constants are those of the source, rounding and NaN are not modelled.
    [np.linalg.norm] is kept abstract behind the class [Linalg] (it is
    non-negative and dominates the absolute value of every component); a
    concrete instance, the Euclidean norm rounded up to 1e-9, is used to run
    the controllers on concrete observations.

    Collaborators.  The simulator ([env.step], [env.render], [env.reset]), the
    wall clock ([time.time]) and the OSQP solve are operations of the class
    [Simulator] over an abstract world; every theorem holds for all of them. *)

From Stdlib Require Import QArith Qabs Qround Qminmax Lqa Lia ZArith List String Ascii Bool DecimalString.
Import ListNotations.
Local Open Scope Q_scope.

(** ** Numbers and small vectors *)

(** [a < b] on floats. *)
Definition Qltb (a b : Q) : bool := negb (Qle_bool b a).

(** [np.clip(x, lo, hi)] on a scalar: [minimum(maximum(x, lo), hi)]. *)
Definition np_clip (x lo hi : Q) : Q := Qmin (Qmax x lo) hi.

(** Python's [int(x)] on a float: truncation toward zero. *)
Definition py_int (q : Q) : Z := Z.quot (Qnum q) (Zpos (Qden q)).

(** Python's [max(a, b)]: [b] only when it is strictly greater. *)
Definition py_max (a b : Q) : Q := if Qltb a b then b else a.

Record vec2 := V2 { x2 : Q; y2 : Q }.
Record vec3 := V3 { x3 : Q; y3 : Q; z3 : Q }.

Definition add2 (a b : vec2) : vec2 := V2 (x2 a + x2 b) (y2 a + y2 b).
Definition sub2 (a b : vec2) : vec2 := V2 (x2 a - x2 b) (y2 a - y2 b).
Definition scale2 (a : vec2) (k : Q) : vec2 := V2 (x2 a * k) (y2 a * k).
Definition div2 (a : vec2) (k : Q) : vec2 := V2 (x2 a / k) (y2 a / k).
Definition sub3 (a b : vec3) : vec3 := V3 (x3 a - x3 b) (y3 a - y3 b) (z3 a - z3 b).

(** [v[:2]] and [np.r_[xy, z]]. *)
Definition xy (v : vec3) : vec2 := V2 (x3 v) (y3 v).
Definition r_ (v : vec2) (z : Q) : vec3 := V3 (x2 v) (y2 v) z.

Definition clip2 (v : vec2) (lo hi : Q) : vec2 :=
  V2 (np_clip (x2 v) lo hi) (np_clip (y2 v) lo hi).
Definition clip3 (v : vec3) (lo hi : Q) : vec3 :=
  V3 (np_clip (x3 v) lo hi) (np_clip (y3 v) lo hi) (np_clip (z3 v) lo hi).

Definition list2 (v : vec2) : list Q := [x2 v; y2 v].
Definition list3 (v : vec3) : list Q := [x3 v; y3 v; z3 v].

(** [np.linalg.norm], with the two facts about it that the controllers'
    properties rest on. *)
Class Linalg := {
  norm : list Q -> Q;
  norm_nonneg : forall v, 0 <= norm v;
  norm_ge_abs : forall v c, In c v -> Qabs c <= norm v
}.

(** The Euclidean norm of rationals, rounded up to a multiple of 1e-9. *)
Definition sum_squares (v : list Q) : Q := fold_right (fun c acc => c * c + acc) 0 v.
Definition sqrt_up (q : Q) : Q :=
  Z.sqrt_up (Qceiling (q * 1000000000000000000)) # 1000000000.
Definition norm_up (v : list Q) : Q := sqrt_up (sum_squares v).

(** ** The simulation, the clock and the solver *)

Record observation := {
  object_state : vec3;                              (* obs["object-state"][:3] *)
  robot0_eef_pos : vec3;                            (* obs["robot0_eef_pos"] *)
  robot0_right_hand_touch_forces : option (list Q)  (* obs.get(...) *)
}.

(** An action is a vector of [env.action_dim] floats. *)
Definition action := list Q.

(** What the scripts call on the world [W].  [action_dim] is
    [env.action_dim]; the scripts write [act[6]], so it is at least 7 (it is 7
    for the Panda arm under OSC_POSE). *)
Class Simulator (W : Type) := {
  action_dim : nat;
  action_dim_ok : (7 <= action_dim)%nat;
  time_time : W -> Q * W;
  env_reset : W -> observation * W;
  env_step : action -> W -> observation * W;
  env_render : W -> W;
  (* prob.solve after px, pv, pg were set; the value of v[:,1], absent when
     the solver found no solution *)
  osqp_solve : vec2 -> vec2 -> vec2 -> W -> option vec2 * W
}.

Definition np_zeros (n : nat) : action := repeat 0 n.

Fixpoint set_at (i : nat) (v : Q) (a : action) : action :=
  match a, i with
  | [], _ => []
  | _ :: t, O => v :: t
  | h :: t, S j => h :: set_at j v t
  end.

(** [act[:3] = dpos]. *)
Definition set_dpos (d : vec3) (a : action) : action :=
  set_at 0 (x3 d) (set_at 1 (y3 d) (set_at 2 (z3 d) a)).

(** The first three components of an action: the position delta. *)
Definition dpos_of (a : action) : list Q := firstn 3 a.

(** The position delta of [a] respects the speed limits: [lim_xy] on x and y,
    [lim_z] on z. *)
Definition within_speed (lim_xy lim_z : Q) (a : action) : Prop :=
  match dpos_of a with
  | [dx; dy; dz] => Qabs dx <= lim_xy /\ Qabs dy <= lim_xy /\ Qabs dz <= lim_z
  | _ => False
  end.

Inductive status_t := success | timeout.

(** [collections.deque(maxlen=n).append]: the oldest entry leaves when full. *)
Definition deque_append (maxlen : nat) (buf : list Q) (v : Q) : list Q :=
  if (maxlen <=? List.length buf)%nat then tl (buf ++ [v]) else buf ++ [v].

(** The sampling loop of the PID script,
    [while elapsed >= next_sample: samples.append(...); next_sample += 1.0],
    with the number of iterations it can take as fuel. *)
Fixpoint sample_loop (fuel : nat) (elapsed err next_sample : Q)
    (samples : list (Z * Q)) : Q * list (Z * Q) :=
  match fuel with
  | O => (next_sample, samples)
  | S f =>
      if Qle_bool next_sample elapsed
      then sample_loop f elapsed err (next_sample + 1)
             (samples ++ [(py_int next_sample, err)])
      else (next_sample, samples)
  end.

Definition sample_fuel (elapsed next_sample : Q) : nat :=
  Z.to_nat (Qfloor (elapsed - next_sample) + 1).

(** The [k] whole seconds [n], [n+1], ..., [n+k-1]. *)
Fixpoint seconds_from (k : nat) (n : Z) : list Z :=
  match k with
  | O => []
  | S k' => n :: seconds_from k' (n + 1)
  end.

(** ** The CSV record *)

(** Rounding to the nearest integer, ties to even, as [format] does. *)
Definition round_half_even (q : Q) : Z :=
  let f := Qfloor q in
  let r := q - inject_Z f in
  if Qltb r (1 # 2) then f
  else if Qltb (1 # 2) r then (f + 1)%Z
  else if Z.even f then f else (f + 1)%Z.

Definition digit (n : Z) : ascii := ascii_of_nat (48 + Z.to_nat (n mod 10)).

(** The last [d] decimal digits of [n], zero-padded. *)
Fixpoint frac_digits (d : nat) (n : Z) : string :=
  match d with
  | O => EmptyString
  | S k => (frac_digits k (n / 10) ++ String (digit n) EmptyString)%string
  end.

(** [f"{q:.<d>f}"]. *)
Definition format_fixed (d : nat) (q : Q) : string :=
  let scale := (10 ^ Z.of_nat d)%Z in
  let n := round_half_even (Qabs q * inject_Z scale) in
  ((if Qltb q 0 then "-" else "")
   ++ NilZero.string_of_int (Z.to_int (n / scale))
   ++ String "." (frac_digits d (n mod scale)))%string.

(** Whether a string has a decimal point in it. *)
Fixpoint has_dot (s : string) : bool :=
  match s with
  | EmptyString => false
  | String c r => Ascii.eqb c "." || has_dot r
  end.

(** Truthiness of [t_finish]: [None] and [0.0] are falsy. *)
Definition truthy (t : option Q) : bool :=
  match t with
  | None => false
  | Some e => negb (Qeq_bool e 0)
  end.

(** [f"{t_finish:.2f}" if t_finish else "NaN"], the same expression in both
    scripts. *)
Definition finish_field (t : option Q) : string :=
  match t with
  | Some e => if truthy t then format_fixed 2 e else "NaN"%string
  | None => "NaN"%string
  end.

Definition status_str (st : status_t) : string :=
  match st with
  | success => "success"%string
  | timeout => "timeout"%string
  end.

(** [f"{sec}s:{er:.3f}"]. *)
Definition sample_field (p : Z * Q) : string :=
  (NilZero.string_of_int (Z.to_int (fst p)) ++ "s:" ++ format_fixed 3 (snd p))%string.

(** ** push_pid.py *)

Module Pid.

Definition MAX_TIME : Q := 180.
Definition APPROACH_HEIGHT : Q := 0.15.
Definition BASE_OFFSET : Q := 0.05.
Definition PUSH_VEL_MAX : Q := 0.15.
Definition PUSH_VEL_MIN : Q := 0.05.
Definition FADE_DIST : Q := 0.001.
Definition EXPONENT : Z := 2.
Definition SPEED_XY : Q := 0.10.
Definition SPEED_Z : Q := 0.10.
Definition TOL_FINE : Q := 0.015.
Definition STALL_TIME : Q := 1.
Definition STALL_THRESH : Q := 0.002.
Definition REAPP_THRESH : Q := 0.15.
Definition RENDER_EVERY : nat := 100.
Definition DAMP : Q := 0.15.
Definition control_freq : Q := 60.   (* suite.make(..., control_freq=60) *)

Inductive phase_t := approach | lower | push.

(** The task constants fixed from the first observation. *)
Record task := { GOAL_XY : vec2; TABLE_Z : Q; WRIST_Z : Q }.

Definition make_task (obs0 : observation) : task :=
  let cube_xyz := object_state obs0 in
  {| GOAL_XY := add2 (xy cube_xyz) (V2 0.15 (-0.10));
     TABLE_Z := z3 cube_xyz;
     WRIST_Z := z3 cube_xyz + 0.001 |}.

(** The variables the main loop reads and writes. *)
Record vars := {
  obs : observation;
  phase : phase_t;
  step : nat;
  stall_buf : list Q;
  next_sample : Q;
  samples : list (Z * Q);
  t_finish : option Q;
  status : status_t
}.

(** [maxlen] of [stall_buf]: [int(STALL_TIME*env.control_freq)]. *)
Definition stall_maxlen : nat := Z.to_nat (py_int (STALL_TIME * control_freq)).

Definition init_vars (obs0 : observation) : vars :=
  {| obs := obs0; phase := approach; step := 0; stall_buf := [];
     next_sample := 1; samples := []; t_finish := None; status := timeout |}.

Section Loop.
Context {L : Linalg} {W : Type} {Sim : Simulator W}.

(** How one pass through the loop body ends: [break], or the next pass
    ([continue] or the end of the body) with the action that was sent to
    [env.step], if one was. *)
Inductive result :=
| Break (s : vars) (w : W)
| Continue (s : vars) (w : W) (act : option action).

(** The action a pass sent to the simulation, if any. *)
Definition issued (r : result) : option action :=
  match r with
  | Break _ _ => None
  | Continue _ _ act => act
  end.

(** The loop variables as a pass leaves them. *)
Definition vars_after (r : result) : vars :=
  match r with
  | Break s _ => s
  | Continue s _ _ => s
  end.

Definition err_vec_of (T : task) (o : observation) : vec2 :=
  sub2 (GOAL_XY T) (xy (object_state o)).
Definition err_of (T : task) (o : observation) : Q :=
  norm (list2 (err_vec_of T o)).

(** The standoff pose the approach phase steers to: [BASE_OFFSET] behind the
    cube on the line to the goal, [APPROACH_HEIGHT] above the table. *)
Definition approach_target (T : task) (o : observation) : vec3 :=
  let cube_xy := xy (object_state o) in
  let dir_u := div2 (err_vec_of T o) (err_of T o + (1 # 1000000000)) in
  r_ (sub2 cube_xy (scale2 dir_u BASE_OFFSET)) (TABLE_Z T + APPROACH_HEIGHT).

(** Lines 58-69: the stall buffer, the samples and the finish time. *)
Definition bookkeeping (T : task) (elapsed : Q) (s : vars) : vars :=
  let err := err_of T (obs s) in
  let '(ns, smp) :=
    sample_loop (sample_fuel elapsed (next_sample s)) elapsed err
      (next_sample s) (samples s) in
  {| obs := obs s; phase := phase s; step := step s;
     stall_buf := deque_append stall_maxlen (stall_buf s) err;
     next_sample := ns; samples := smp;
     t_finish := match t_finish s with
                 | None => if Qle_bool err 0.01 then Some elapsed else None
                 | Some t => Some t
                 end;
     status := status s |}.

Definition set_status (st : status_t) (s : vars) : vars :=
  {| obs := obs s; phase := phase s; step := step s; stall_buf := stall_buf s;
     next_sample := next_sample s; samples := samples s;
     t_finish := t_finish s; status := st |}.

Definition set_phase (p : phase_t) (s : vars) : vars :=
  {| obs := obs s; phase := p; step := step s; stall_buf := stall_buf s;
     next_sample := next_sample s; samples := samples s;
     t_finish := t_finish s; status := status s |}.

Definition clear_stall_buf (s : vars) : vars :=
  {| obs := obs s; phase := phase s; step := step s; stall_buf := [];
     next_sample := next_sample s; samples := samples s;
     t_finish := t_finish s; status := status s |}.

(** [act = np.zeros(env.action_dim); act[:3] = dpos; act[6] = 1]. *)
Definition make_act (dpos : vec3) : action :=
  set_at 6 1 (set_dpos dpos (np_zeros action_dim)).

(** [obs,*_ = env.step(act); step += 1; if step % RENDER_EVERY == 0:
    env.render()]. *)
Definition send (act : action) (s : vars) (w : W) : result :=
  let '(o, w1) := env_step act w in
  let n := S (step s) in
  let w2 := if (n mod RENDER_EVERY =? 0)%nat then env_render w1 else w1 in
  Continue
    {| obs := o; phase := phase s; step := n; stall_buf := stall_buf s;
       next_sample := next_sample s; samples := samples s;
       t_finish := t_finish s; status := status s |}
    w2 (Some act).

(** Lines 104-109: the shared tail of the approach and lower branches. *)
Definition fallback (tgt_xy : vec2) (tgt_z : Q) (s : vars) (w : W) : result :=
  let ee_pos := robot0_eef_pos (obs s) in
  let tgt := r_ tgt_xy tgt_z in
  let dpos := clip3 (sub3 tgt ee_pos) (- SPEED_XY) SPEED_XY in
  send (make_act dpos) s w.

Definition approach_branch (T : task) (s : vars) (w : W) : result :=
  let cube_xy := xy (object_state (obs s)) in
  let ee_pos := robot0_eef_pos (obs s) in
  let err_vec := err_vec_of T (obs s) in
  let err := err_of T (obs s) in
  let dir_u := div2 err_vec (err + (1 # 1000000000)) in
  let tgt_xy := sub2 cube_xy (scale2 dir_u BASE_OFFSET) in
  let tgt_z := TABLE_Z T + APPROACH_HEIGHT in
  let s1 := if Qltb (norm (list3 (sub3 ee_pos (r_ tgt_xy tgt_z)))) 0.005
            then set_phase lower s else s in
  fallback tgt_xy tgt_z s1 w.

Definition lower_branch (T : task) (s : vars) (w : W) : result :=
  let ee_pos := robot0_eef_pos (obs s) in
  let tgt_xy := xy ee_pos in
  let tgt_z := WRIST_Z T + 0.001 in
  let s1 := if Qltb (Qabs (z3 ee_pos - tgt_z)) 0.0008
            then clear_stall_buf (set_phase push s) else s in
  fallback tgt_xy tgt_z s1 w.

Definition push_branch (T : task) (s : vars) (w : W) : result :=
  let cube_xy := xy (object_state (obs s)) in
  let ee_pos := robot0_eef_pos (obs s) in
  let err_vec := err_vec_of T (obs s) in
  let err := err_of T (obs s) in
  let dir_u := div2 err_vec (err + (1 # 1000000000)) in
  let lateral :=
    norm (list2 (sub2 cube_xy (add2 (xy ee_pos) (scale2 dir_u BASE_OFFSET)))) in
  if Qltb REAPP_THRESH lateral then Continue (set_phase approach s) w None
  else if (List.length (stall_buf s) =? stall_maxlen)%nat
          && Qltb (hd 0 (stall_buf s) - err) STALL_THRESH
  then Continue (set_phase approach s) w None
  else
    let fade := np_clip (Qpower (err / FADE_DIST) EXPONENT + DAMP) 0 1 in
    let fwd := py_max (PUSH_VEL_MAX * fade)
                 (if Qltb FADE_DIST err then PUSH_VEL_MIN else 0) in
    let dxy := sub2 (scale2 dir_u fwd) (scale2 (sub2 cube_xy (xy ee_pos)) 0.5) in
    let dz := np_clip (WRIST_Z T - z3 ee_pos) (- SPEED_Z) SPEED_Z in
    let dpos := clip3 (r_ dxy dz) (- SPEED_XY) SPEED_XY in
    send (make_act dpos) s w.

(** One pass through the body of [while True] (lines 54-109). *)
Definition tick (T : task) (t0 : Q) (s : vars) (w : W) : result :=
  let '(now, w1) := time_time w in
  let elapsed := now - t0 in
  if Qltb MAX_TIME elapsed then Break s w1
  else
    let s1 := bookkeeping T elapsed s in
    if Qltb (err_of T (obs s)) TOL_FINE then Break (set_status success s1) w1
    else
      match phase s1 with
      | approach => approach_branch T s1 w1
      | lower => lower_branch T s1 w1
      | push => push_branch T s1 w1
      end.

(** The loop, for at most [fuel] passes. *)
Fixpoint loop (fuel : nat) (T : task) (t0 : Q) (s : vars) (w : W)
    : option (vars * W) :=
  match fuel with
  | O => None
  | S f =>
      match tick T t0 s w with
      | Break s' w' => Some (s', w')
      | Continue s' w' _ => loop f T t0 s' w'
      end
  end.

(** Lines 113-122: the record printed after the loop. *)
Definition csv_fields (impl trial : string) (total : Q) (s : vars) : list string :=
  [impl; trial; format_fixed 2 total; finish_field (t_finish s);
   status_str (status s)]
  ++ map sample_field (samples s).

Definition csv_line (impl trial : string) (total : Q) (s : vars) : string :=
  String.concat "," (csv_fields impl trial total s).

(** The whole script: the printed line, if the loop ends within [fuel]
    passes. *)
Definition main (fuel : nat) (impl trial : string) (w : W) : option string :=
  let '(t0, w1) := time_time w in
  let '(obs0, w2) := env_reset w1 in
  match loop fuel (make_task obs0) t0 (init_vars obs0) w2 with
  | None => None
  | Some (s, w3) =>
      let '(now, _) := time_time w3 in
      Some (csv_line impl trial (now - t0) s)
  end.

End Loop.
End Pid.

(** The seconds on record are 1, 2, ..., n-1 and the next one due is n. *)
Definition sampled_below (n : Z) (s : Pid.vars) : Prop :=
  (1 <= n)%Z
  /\ Pid.next_sample s = inject_Z n
  /\ map fst (Pid.samples s) = seconds_from (Z.to_nat (n - 1)) 1.

(** ** push_mpc.py *)

Module Mpc.

Definition APPROACH_H : Q := 0.15.
Definition LIFT_H : Q := 0.06.
Definition BASE_OFF : Q := 0.05.
Definition PALM_Z_OFF : Q := -0.002.
Definition SEEK_VEL : Q := 0.03.
Definition SPEED_XY : Q := 0.10.
Definition SPEED_Z : Q := 0.10.
Definition TOL_FINE : Q := 0.015.
Definition TIMEOUT_SEC : Q := 30.
Definition RENDER_EVERY : nat := 100.
Definition DT : Q := 1 / 60.
Definition CONTACT_THRESH : Q := 1 # 10000.   (* the literal 1e-4 *)

Inductive state_t := approach | lower | seek | seek_lift | mpc.

Record task := { GOAL_XY : vec2; TABLE_Z : Q; WRIST_Z : Q }.

Definition make_task (obs0 : observation) : task :=
  let cube_xyz := object_state obs0 in
  {| GOAL_XY := add2 (xy cube_xyz) (V2 0.15 (-0.10));
     TABLE_Z := z3 cube_xyz;
     WRIST_Z := z3 cube_xyz + PALM_Z_OFF |}.

Record vars := {
  obs : observation;
  state : state_t;
  prev_xy : vec2;
  step : nat;
  next_sample : Q;
  samples : list (Z * Q);
  t_finish : option Q;
  status : status_t
}.

Definition init_vars (obs0 : observation) : vars :=
  {| obs := obs0; state := approach; prev_xy := xy (object_state obs0);
     step := 0; next_sample := 1; samples := []; t_finish := None;
     status := success |}.

(** The [break] statements of the loop, by the line they stand on. *)
Inductive exit_site :=
| top_success      (* line 88 *)
| timeout_guard    (* line 98 *)
| mpc_success.     (* line 154 *)

Section Loop.
Context {L : Linalg} {W : Type} {Sim : Simulator W}.

(** How one pass through the loop body ends: a [break], the end of the body
    with the action sent to [env.step], or the [TypeError] raised on
    [v_cmd*DT] when the solver left no value. *)
Inductive result :=
| Break (site : exit_site) (s : vars) (w : W) (act : option action)
| Continue (s : vars) (w : W) (act : action)
| Crash.

(** The action a pass sent to the simulation, if any. *)
Definition issued (r : result) : option action :=
  match r with
  | Break _ _ _ act => act
  | Continue _ _ act => Some act
  | Crash => None
  end.

(** The loop variables as a pass leaves them ([s0] when the script stopped
    on the exception). *)
Definition vars_after (s0 : vars) (r : result) : vars :=
  match r with
  | Break _ s _ _ => s
  | Continue s _ _ => s
  | Crash => s0
  end.

(** [contact = lambda o: 0.0 if ... is None else np.linalg.norm(...)]. *)
Definition contact (o : observation) : Q :=
  match robot0_right_hand_touch_forces o with
  | None => 0
  | Some f => norm f
  end.

Definition back_pose (T : task) (cube_xy : vec2) (height : Q) : vec3 :=
  let d := sub2 (GOAL_XY T) cube_xy in
  let dir_u := div2 d (norm (list2 d) + (1 # 1000000000)) in
  r_ (sub2 cube_xy (scale2 dir_u BASE_OFF)) (TABLE_Z T + height).

Definition err_of (T : task) (o : observation) : Q :=
  norm (list2 (sub2 (GOAL_XY T) (xy (object_state o)))).

Definition set_status (st : status_t) (s : vars) : vars :=
  {| obs := obs s; state := state s; prev_xy := prev_xy s; step := step s;
     next_sample := next_sample s; samples := samples s;
     t_finish := t_finish s; status := st |}.

Definition set_state (p : state_t) (s : vars) : vars :=
  {| obs := obs s; state := p; prev_xy := prev_xy s; step := step s;
     next_sample := next_sample s; samples := samples s;
     t_finish := t_finish s; status := status s |}.

Definition set_prev_xy (v : vec2) (s : vars) : vars :=
  {| obs := obs s; state := state s; prev_xy := v; step := step s;
     next_sample := next_sample s; samples := samples s;
     t_finish := t_finish s; status := status s |}.

Definition set_obs (o : observation) (s : vars) : vars :=
  {| obs := o; state := state s; prev_xy := prev_xy s; step := step s;
     next_sample := next_sample s; samples := samples s;
     t_finish := t_finish s; status := status s |}.

(** Lines 100-105: one sample at most, and the finish time. *)
Definition bookkeeping (elapsed err : Q) (s : vars) : vars :=
  let '(ns, smp) :=
    if Qle_bool (next_sample s) elapsed
    then (next_sample s + 1, samples s ++ [(py_int (next_sample s), err)])
    else (next_sample s, samples s) in
  {| obs := obs s; state := state s; prev_xy := prev_xy s; step := step s;
     next_sample := ns; samples := smp;
     t_finish := match t_finish s with
                 | None => if Qle_bool err 0.01 then Some elapsed else None
                 | Some t => Some t
                 end;
     status := status s |}.

(** [act = np.zeros(env.action_dim); act[:3] = dpos; act[6] = 1]. *)
Definition make_act (dpos : vec3) : action :=
  set_at 6 1 (set_dpos dpos (np_zeros action_dim)).

(** Lines 159-161: [if step % RENDER_EVERY == 0: env.render()], [step += 1]. *)
Definition end_of_body (act : action) (s : vars) (w : W) : result :=
  let w1 := if (step s mod RENDER_EVERY =? 0)%nat then env_render w else w in
  Continue
    {| obs := obs s; state := state s; prev_xy := prev_xy s; step := S (step s);
       next_sample := next_sample s; samples := samples s;
       t_finish := t_finish s; status := status s |}
    w1 act.

Definition approach_branch (T : task) (s : vars) (w : W) : result :=
  let cube_xy := xy (object_state (obs s)) in
  let ee := robot0_eef_pos (obs s) in
  let tgt := back_pose T cube_xy APPROACH_H in
  let act := make_act (clip3 (sub3 tgt ee) (- SPEED_XY) SPEED_XY) in
  let '(o, w1) := env_step act w in
  let s1 := set_obs o s in
  let s2 := if Qltb (norm (list3 (sub3 tgt ee))) 0.004
            then set_state lower s1 else s1 in
  end_of_body act s2 w1.

Definition lower_branch (T : task) (s : vars) (w : W) : result :=
  let ee := robot0_eef_pos (obs s) in
  let tgt := r_ (xy ee) (WRIST_Z T) in
  let act := make_act (clip3 (sub3 tgt ee) (- SPEED_XY) SPEED_Z) in
  let '(o, w1) := env_step act w in
  let s1 := set_obs o s in
  let s2 := if Qltb (Qabs (z3 ee - z3 tgt)) 0.002
            then set_state seek s1 else s1 in
  end_of_body act s2 w1.

Definition seek_lift_branch (T : task) (s : vars) (w : W) : result :=
  let cube_xy := xy (object_state (obs s)) in
  let ee := robot0_eef_pos (obs s) in
  let tgt := back_pose T cube_xy LIFT_H in
  let act := make_act (clip3 (sub3 tgt ee) (- SPEED_XY) SPEED_Z) in
  let '(o, w1) := env_step act w in
  let s1 := set_obs o s in
  let s2 := if Qltb (norm (list3 (sub3 tgt ee))) 0.004
            then set_state seek s1 else s1 in
  end_of_body act s2 w1.

Definition seek_branch (T : task) (s : vars) (w : W) : result :=
  let cube_xy := xy (object_state (obs s)) in
  let ee := robot0_eef_pos (obs s) in
  let err := err_of T (obs s) in
  let dir_u := div2 (sub2 (GOAL_XY T) cube_xy) (err + (1 # 1000000000)) in
  let v := scale2 dir_u SEEK_VEL in
  let act :=
    set_at 6 1
      (set_at 2 (np_clip (WRIST_Z T - z3 ee) (- SPEED_Z) SPEED_Z)
         (set_at 0 (x2 v) (set_at 1 (y2 v) (np_zeros action_dim)))) in
  let '(o, w1) := env_step act w in
  let s1 := set_obs o s in
  let s2 := if Qltb CONTACT_THRESH (contact o)
            then set_prev_xy cube_xy (set_state mpc s1) else s1 in
  end_of_body act s2 w1.

Definition mpc_branch (T : task) (s : vars) (w : W) : result :=
  let cube_xy := xy (object_state (obs s)) in
  let ee := robot0_eef_pos (obs s) in
  let err := err_of T (obs s) in
  let cube_v := div2 (sub2 cube_xy (prev_xy s)) DT in
  let s0 := set_prev_xy cube_xy s in
  let '(sol, w0) := osqp_solve cube_xy cube_v (GOAL_XY T) w in
  match sol with
  | None => Crash
  | Some v_cmd =>
      let dxy := clip2 (scale2 v_cmd DT) (- SPEED_XY) SPEED_XY in
      let dz := WRIST_Z T - z3 ee in
      let act :=
        set_at 6 1
          (set_at 2 (np_clip dz (- SPEED_Z) SPEED_Z)
             (set_at 0 (x2 dxy) (set_at 1 (y2 dxy) (np_zeros action_dim)))) in
      let '(o, w1) := env_step act w0 in
      let s1 := set_obs o s0 in
      if Qltb err TOL_FINE then Break mpc_success s1 w1 (Some act)
      else
        let s2 := if Qltb (contact o) CONTACT_THRESH
                  then set_state seek_lift s1 else s1 in
        end_of_body act s2 w1
  end.

(** One pass through the body of [while True] (lines 84-161). *)
Definition tick (T : task) (t0 : Q) (s : vars) (w : W) : result :=
  let err := err_of T (obs s) in
  if Qltb err TOL_FINE then Break top_success (set_status success s) w None
  else
    let '(now, w1) := time_time w in
    let elapsed := now - t0 in
    if Qltb TIMEOUT_SEC elapsed
    then Break timeout_guard (set_status timeout s) w1 None
    else
      let s1 := bookkeeping elapsed err s in
      match state s1 with
      | approach => approach_branch T s1 w1
      | lower => lower_branch T s1 w1
      | seek_lift => seek_lift_branch T s1 w1
      | seek => seek_branch T s1 w1
      | mpc => mpc_branch T s1 w1
      end.

(** The loop, for at most [fuel] passes; [None] when the fuel runs out or the
    script stops on the exception. *)
Fixpoint loop (fuel : nat) (T : task) (t0 : Q) (s : vars) (w : W)
    : option (vars * W) :=
  match fuel with
  | O => None
  | S f =>
      match tick T t0 s w with
      | Break _ s' w' _ => Some (s', w')
      | Continue s' w' _ => loop f T t0 s' w'
      | Crash => None
      end
  end.

(** Lines 163-174: the record printed after the loop; here the status comes
    before the finish time. *)
Definition csv_fields (impl trial : string) (total : Q) (s : vars) : list string :=
  [impl; trial; format_fixed 2 total; status_str (status s);
   finish_field (t_finish s)]
  ++ map sample_field (samples s).

Definition csv_line (impl trial : string) (total : Q) (s : vars) : string :=
  String.concat "," (csv_fields impl trial total s).

(** The whole script, with the first solve of line 68. *)
Definition main (fuel : nat) (impl trial : string) (w : W) : option string :=
  let '(t0, w1) := time_time w in
  let '(obs0, w2) := env_reset w1 in
  let T := make_task obs0 in
  let '(_, w3) := osqp_solve (xy (object_state obs0)) (V2 0 0) (GOAL_XY T) w2 in
  match loop fuel T t0 (init_vars obs0) w3 with
  | None => None
  | Some (s, w4) =>
      let '(now, _) := time_time w4 in
      Some (csv_line impl trial (now - t0) s)
  end.

End Loop.
End Mpc.

(** ** A scripted world

    A world that replays a list of clock readings and a list of
    observations, whatever the action; the last reading and the last
    observation are repeated once the lists are used up.  The solver always
    answers with the same velocity. *)

Record script := {
  clock_now : Q;
  clock_next : list Q;
  frame_now : observation;
  frame_next : list observation;
  solver_answer : option vec2
}.

Definition script_time (w : script) : Q * script :=
  match clock_next w with
  | [] => (clock_now w, w)
  | t :: r =>
      (t, {| clock_now := t; clock_next := r; frame_now := frame_now w;
             frame_next := frame_next w; solver_answer := solver_answer w |})
  end.

Definition script_step (_ : action) (w : script) : observation * script :=
  match frame_next w with
  | [] => (frame_now w, w)
  | o :: r =>
      (o, {| clock_now := clock_now w; clock_next := clock_next w;
             frame_now := o; frame_next := r;
             solver_answer := solver_answer w |})
  end.

#[export] Instance script_sim : Simulator script := {|
  action_dim := 7;
  action_dim_ok := le_n 7;
  time_time := script_time;
  env_reset := fun w => (frame_now w, w);
  env_step := script_step;
  env_render := fun w => w;
  osqp_solve := fun _ _ _ w => (solver_answer w, w)
|}.

(** An observation with the cube at [cube], the end-effector at [ee] and the
    touch sensor reading [touch]. *)
Definition frame (cube ee : vec3) (touch : option (list Q)) : observation :=
  {| object_state := cube; robot0_eef_pos := ee;
     robot0_right_hand_touch_forces := touch |}.

(** ** Concrete runs

    The cube starts at the origin of the table plane, 0.8 m high, so the goal
    is at (0.15, -0.10) and its distance from the cube is about 0.18 m. *)

Definition cube0 : vec3 := V3 0 0 0.8.
Definition ee_far : vec3 := V3 (-0.3) 0.2 1.
Definition obs_far : observation := frame cube0 ee_far None.

(** The cube 8 mm from the goal: within the finish tolerance. *)
Definition obs_near : observation := frame (V3 0.15 (-0.092) 0.8) ee_far None.

Definition world (now : Q) (clock : list Q) (frames : list observation)
    (answer : option vec2) : script :=
  {| clock_now := now; clock_next := clock; frame_now := obs_far;
     frame_next := frames; solver_answer := answer |}.

(** The end-effector at the working height of the PID script, behind the
    cube. *)
Definition obs_low : observation := frame cube0 (V3 (-0.04) 0.03 0.802) None.

(** A full stall window over which the error stayed at 0.1803 m. *)
Definition stalled_buf : list Q := repeat 0.1803 60.

(** A full stall window over which the error came down from 0.19 m. *)
Definition progress_buf : list Q := repeat 0.19 60.

(** The standoff point of the approach phase for the cube at [cube0]: 5 cm
    behind the cube on the line to the goal. *)
Definition standoff0 : vec2 :=
  sub2 (xy cube0)
    (scale2 (div2 (V2 0.15 (-0.10)) (norm_up [0.15; -0.10] + (1 # 1000000000)))
       0.05).

(** The end-effector [dz] above the standoff pose (which is 0.15 m above the
    table). *)
Definition obs_standoff (dz : Q) : observation :=
  frame cube0 (r_ standoff0 (0.95 + dz)) None.

(** The touch sensor reading a force of 0.5 along x. *)
Definition obs_touch : observation := frame cube0 ee_far (Some [0.5; 0; 0]).

Definition pid_task : Pid.task := Pid.make_task obs_far.
Definition mpc_task : Mpc.task := Mpc.make_task obs_far.

Definition pid_vars (o : observation) (p : Pid.phase_t) (buf : list Q) : Pid.vars :=
  {| Pid.obs := o; Pid.phase := p; Pid.step := 0; Pid.stall_buf := buf;
     Pid.next_sample := 1; Pid.samples := []; Pid.t_finish := None;
     Pid.status := timeout |}.

Definition mpc_vars (o : observation) (p : Mpc.state_t) : Mpc.vars :=
  {| Mpc.obs := o; Mpc.state := p; Mpc.prev_xy := xy (object_state o);
     Mpc.step := 0; Mpc.next_sample := 1; Mpc.samples := [];
     Mpc.t_finish := None; Mpc.status := success |}.

(** ** More concrete observations *)

(** The end-effector 0.5 mm above the working height of the MPC script. *)
Definition obs_low_mpc : observation := frame cube0 (V3 (-0.04) 0.03 0.7985) None.

(** The end-effector in pushing position behind the cube, at the working
    height of the PID script. *)
Definition obs_push : observation := frame cube0 (V3 (-0.04) 0.03 0.801) None.

(** The end-effector 30 cm to the side of the cube: off the push line. *)
Definition obs_off_line : observation := frame cube0 (V3 0.3 0.2 0.801) None.

(** ** Vocabulary of the further properties *)

(** The shape of an action: [n] floats, the gripper component [a[6]] at 1,
    the rotation components and everything beyond the gripper at 0. *)
Definition action_shape (n : nat) (a : action) : Prop :=
  List.length a = n
  /\ nth 6 a 0 = 1
  /\ forall i, (3 <= i)%nat -> i <> 6%nat -> nth i a 0 = 0.

(** The edges of the PID phase machine: a phase is kept or handed over to
    the next one, push going back to approach. *)
Definition pid_edge (p q : Pid.phase_t) : Prop :=
  match p with
  | Pid.approach => q = Pid.approach \/ q = Pid.lower
  | Pid.lower => q = Pid.lower \/ q = Pid.push
  | Pid.push => q = Pid.push \/ q = Pid.approach
  end.

(** The edges of the MPC state machine: approach, lower, seek, mpc in a row,
    and the detour mpc, seek_lift, seek. *)
Definition mpc_edge (p q : Mpc.state_t) : Prop :=
  match p with
  | Mpc.approach => q = Mpc.approach \/ q = Mpc.lower
  | Mpc.lower => q = Mpc.lower \/ q = Mpc.seek
  | Mpc.seek => q = Mpc.seek \/ q = Mpc.mpc
  | Mpc.mpc => q = Mpc.mpc \/ q = Mpc.seek_lift
  | Mpc.seek_lift => q = Mpc.seek_lift \/ q = Mpc.seek
  end.

(** The seconds on the MPC record are 1, 2, ..., n-1 and the next one due is
    n. *)
Definition mpc_sampled_below (n : Z) (s : Mpc.vars) : Prop :=
  (1 <= n)%Z
  /\ Mpc.next_sample s = inject_Z n
  /\ map fst (Mpc.samples s) = seconds_from (Z.to_nat (n - 1)) 1.

(** Line 89 of the PID script: how far the cube is from the point
    [BASE_OFFSET] ahead of the end-effector in the push direction. *)
Definition pid_lateral {L : Linalg} (T : Pid.task) (o : observation) : Q :=
  let cube_xy := xy (object_state o) in
  let dir_u := div2 (Pid.err_vec_of T o) (Pid.err_of T o + (1 # 1000000000)) in
  norm (list2 (sub2 cube_xy
                 (add2 (xy (robot0_eef_pos o)) (scale2 dir_u Pid.BASE_OFFSET)))).

(** Lines 94-95 of the PID script: the forward speed of the push, as a
    function of the error. *)
Definition pid_push_fwd (err : Q) : Q :=
  let fade := np_clip (Qpower (err / Pid.FADE_DIST) Pid.EXPONENT + Pid.DAMP) 0 1 in
  py_max (Pid.PUSH_VEL_MAX * fade)
    (if Qltb Pid.FADE_DIST err then Pid.PUSH_VEL_MIN else 0).

(** Line 40 of the MPC script: the bound [cp.norm_inf(v[:,k+1]) <= V_MAX] the
    optimisation problem puts on every velocity it returns. *)
Definition mpc_V_MAX : Q := 0.4.

(** * Properties *)

(** ** Comparisons and clipping *)

Lemma Qltb_lt (a b : Q) : Qltb a b = true <-> a < b.
Proof.
  unfold Qltb. rewrite negb_true_iff.
  split; intro H.
  - apply Qnot_le_lt. intro Hle. apply Qle_bool_iff in Hle. congruence.
  - destruct (Qle_bool b a) eqn:E; [|reflexivity].
    apply Qle_bool_iff in E. exfalso. exact (Qlt_not_le _ _ H E).
Qed.

Lemma Qltb_ge (a b : Q) : Qltb a b = false <-> b <= a.
Proof.
  unfold Qltb. rewrite negb_false_iff. apply Qle_bool_iff.
Qed.

(** From [Some a = Some b] to [a = b], without unfolding [a] or [b]. *)
Lemma Some_eq {A : Type} (a b : A) : Some a = Some b -> a = b.
Proof. congruence. Qed.

Ltac some_subst :=
  let H := fresh "H" in
  intro H; apply Some_eq in H; subst.

Lemma np_clip_bounds (x lo hi : Q) : lo <= hi -> lo <= np_clip x lo hi <= hi.
Proof.
  intro H. unfold np_clip. split.
  - apply Q.min_glb; [apply Q.le_max_r | exact H].
  - apply Q.le_min_r.
Qed.

Lemma np_clip_abs (x m : Q) : 0 <= m -> Qabs (np_clip x (- m) m) <= m.
Proof.
  intro H. apply Qabs_Qle_condition. apply np_clip_bounds. lra.
Qed.

(** ** The rounded-up Euclidean norm is a norm in the sense of [Linalg] *)

Lemma sum_squares_nonneg (v : list Q) : 0 <= sum_squares v.
Proof.
  induction v as [|c v IH]; simpl; [lra|]. nra.
Qed.

Lemma sum_squares_ge (v : list Q) (c : Q) : In c v -> c * c <= sum_squares v.
Proof.
  induction v as [|d v IH]; simpl; [tauto|].
  intros [->|H].
  - pose proof (sum_squares_nonneg v). lra.
  - specialize (IH H). nra.
Qed.

Lemma sqrt_up_nonneg (q : Q) : 0 <= sqrt_up q.
Proof.
  unfold sqrt_up, Qle. simpl.
  pose proof (Z.sqrt_up_nonneg (Qceiling (q * 1000000000000000000))). lia.
Qed.

Lemma sqrt_up_ge (q c : Q) : c * c <= q -> Qabs c <= sqrt_up q.
Proof.
  intro H. unfold sqrt_up.
  set (N := Qceiling (q * 1000000000000000000)).
  assert (HN : q * 1000000000000000000 <= inject_Z N) by apply Qle_ceiling.
  assert (Hc : 0 <= c * c) by nra.
  assert (HN0 : (0 <= N)%Z).
  { apply Z.le_ngt. intro Hneg.
    assert (inject_Z N < 0) by (unfold Qlt; simpl; lia). lra. }
  pose proof (Z.sqrt_sqrt_up_spec N HN0) as [_ Hr].
  pose proof (Z.sqrt_up_nonneg N) as Hr0.
  set (r := Z.sqrt_up N) in *.
  assert (Hr' : inject_Z N <= inject_Z r * inject_Z r).
  { rewrite <- inject_Z_mult. rewrite <- Zle_Qle. exact Hr. }
  assert (Hr0' : 0 <= inject_Z r) by (unfold Qle; simpl; lia).
  assert (E : r # 1000000000 == inject_Z r / 1000000000).
  { unfold Qeq, inject_Z, Qdiv, Qmult, Qinv. simpl. lia. }
  rewrite E.
  apply Qle_shift_div_l; [reflexivity|].
  pose proof (Qabs_nonneg c) as Ha.
  assert (Hsq : Qabs c * Qabs c == c * c).
  { apply Qabs_case; intros; ring. }
  nra.
Qed.

#[export] Instance norm_up_linalg : Linalg := {|
  norm := norm_up;
  norm_nonneg := fun v => sqrt_up_nonneg (sum_squares v);
  norm_ge_abs := fun v c H => sqrt_up_ge (sum_squares v) c (sum_squares_ge v c H)
|}.

(** ** Actions: what reaches [env.step] *)

Section Actions.
Context {L : Linalg} {W : Type} {Sim : Simulator W}.

Lemma dpos_of_set_dpos (d : vec3) (a : action) :
  (7 <= List.length a)%nat -> dpos_of (set_at 6 1 (set_dpos d a)) = list3 d.
Proof.
  intro H.
  destruct a as [|a0 [|a1 [|a2 [|a3 [|a4 [|a5 [|a6 a]]]]]]]; simpl in H; try lia.
  reflexivity.
Qed.

Lemma dpos_of_set_each (a : action) (vx vy vz : Q) :
  (7 <= List.length a)%nat ->
  dpos_of (set_at 6 1 (set_at 2 vz (set_at 0 vx (set_at 1 vy a)))) = [vx; vy; vz].
Proof.
  intro H.
  destruct a as [|a0 [|a1 [|a2 [|a3 [|a4 [|a5 [|a6 a]]]]]]]; simpl in H; try lia.
  reflexivity.
Qed.

Lemma np_zeros_length : (7 <= List.length (np_zeros action_dim))%nat.
Proof.
  unfold np_zeros. rewrite repeat_length. apply action_dim_ok.
Qed.

Lemma within_speed_clip3 (v : vec3) (a : action) (m : Q) :
  0 <= m ->
  dpos_of a = list3 (clip3 v (- m) m) -> within_speed m m a.
Proof.
  intros Hm E. unfold within_speed. rewrite E. simpl.
  repeat split; apply np_clip_abs; exact Hm.
Qed.

(** A component of the unit direction, scaled by [k], stays within [k]. *)
Lemma unit_component_bound (x e k : Q) :
  0 <= k -> Qabs x <= e ->
  Qabs (x / (e + (1 # 1000000000)) * k) <= k.
Proof.
  intros Hk Hx.
  apply Qabs_Qle_condition in Hx. destruct Hx as [Hlo Hhi].
  assert (He : 0 < e + (1 # 1000000000)) by lra.
  assert (Hu : x / (e + (1 # 1000000000)) <= 1).
  { apply Qle_shift_div_r; [exact He | lra]. }
  assert (Hl : - (1) <= x / (e + (1 # 1000000000))).
  { apply Qle_shift_div_l; [exact He | lra]. }
  apply Qabs_Qle_condition. split; nra.
Qed.

Lemma pid_send_issued (act : action) (s : Pid.vars) (w : W) :
  Pid.issued (Pid.send act s w) = Some act.
Proof.
  unfold Pid.send. destruct (env_step act w). reflexivity.
Qed.

Lemma pid_fallback_within (tgt_xy : vec2) (tgt_z : Q) (s : Pid.vars) (w : W) (act : action) :
  Pid.issued (Pid.fallback tgt_xy tgt_z s w) = Some act ->
  within_speed Pid.SPEED_XY Pid.SPEED_Z act.
Proof.
  unfold Pid.fallback. rewrite pid_send_issued. some_subst.
  eapply within_speed_clip3; [discriminate|].
  unfold Pid.make_act. apply dpos_of_set_dpos, np_zeros_length.
Qed.

Lemma pid_push_within (T : Pid.task) (s : Pid.vars) (w : W) (act : action) :
  Pid.issued (Pid.push_branch T s w) = Some act ->
  within_speed Pid.SPEED_XY Pid.SPEED_Z act.
Proof.
  unfold Pid.push_branch.
  destruct (Qltb Pid.REAPP_THRESH _); [discriminate|].
  destruct (_ && _)%bool; [discriminate|].
  rewrite pid_send_issued. some_subst.
  eapply within_speed_clip3; [discriminate|].
  unfold Pid.make_act. apply dpos_of_set_dpos, np_zeros_length.
Qed.

Lemma pid_tick_within (T : Pid.task) (t0 : Q) (s : Pid.vars) (w : W) (act : action) :
  Pid.issued (Pid.tick T t0 s w) = Some act ->
  within_speed Pid.SPEED_XY Pid.SPEED_Z act.
Proof.
  unfold Pid.tick. destruct (time_time w) as [now w1].
  destruct (Qltb Pid.MAX_TIME _); [discriminate|].
  destruct (Qltb (Pid.err_of T (Pid.obs s)) Pid.TOL_FINE); [discriminate|].
  destruct (Pid.phase _).
  - unfold Pid.approach_branch. apply pid_fallback_within.
  - unfold Pid.lower_branch. apply pid_fallback_within.
  - apply pid_push_within.
Qed.

Lemma mpc_end_issued (act : action) (s : Mpc.vars) (w : W) :
  Mpc.issued (Mpc.end_of_body act s w) = Some act.
Proof. reflexivity. Qed.

Lemma mpc_make_act_within (v : vec3) :
  within_speed Mpc.SPEED_XY Mpc.SPEED_Z
    (Mpc.make_act (clip3 v (- Mpc.SPEED_XY) Mpc.SPEED_Z)).
Proof.
  apply (within_speed_clip3 v); [discriminate|].
  unfold Mpc.make_act. apply dpos_of_set_dpos, np_zeros_length.
Qed.

Lemma mpc_seek_within (T : Mpc.task) (s : Mpc.vars) (w : W) (act : action) :
  Mpc.issued (Mpc.seek_branch T s w) = Some act ->
  within_speed Mpc.SPEED_XY Mpc.SPEED_Z act.
Proof.
  unfold Mpc.seek_branch.
  destruct (env_step _ w) as [o w1] eqn:E.
  rewrite mpc_end_issued. some_subst.
  unfold within_speed. rewrite dpos_of_set_each by apply np_zeros_length.
  set (d := sub2 (Mpc.GOAL_XY T) (xy (object_state (Mpc.obs s)))).
  assert (Hx : Qabs (x2 d) <= Mpc.err_of T (Mpc.obs s)).
  { apply norm_ge_abs. left. reflexivity. }
  assert (Hy : Qabs (y2 d) <= Mpc.err_of T (Mpc.obs s)).
  { apply norm_ge_abs. right. left. reflexivity. }
  assert (Hk : Mpc.SEEK_VEL <= Mpc.SPEED_XY) by discriminate.
  repeat split.
  - eapply Qle_trans; [|exact Hk].
    apply unit_component_bound; [discriminate | exact Hx].
  - eapply Qle_trans; [|exact Hk].
    apply unit_component_bound; [discriminate | exact Hy].
  - apply np_clip_abs. discriminate.
Qed.

Lemma mpc_mpc_within (T : Mpc.task) (s : Mpc.vars) (w : W) (act : action) :
  Mpc.issued (Mpc.mpc_branch T s w) = Some act ->
  within_speed Mpc.SPEED_XY Mpc.SPEED_Z act.
Proof.
  unfold Mpc.mpc_branch.
  destruct (osqp_solve _ _ _ w) as [[v_cmd|] w0]; [|discriminate].
  destruct (env_step _ w0) as [o w1] eqn:E.
  assert (Hw : forall a : action,
    a = set_at 6 1
          (set_at 2 (np_clip (Mpc.WRIST_Z T - z3 (robot0_eef_pos (Mpc.obs s)))
                       (- Mpc.SPEED_Z) Mpc.SPEED_Z)
             (set_at 0 (x2 (clip2 (scale2 v_cmd Mpc.DT) (- Mpc.SPEED_XY) Mpc.SPEED_XY))
                (set_at 1 (y2 (clip2 (scale2 v_cmd Mpc.DT) (- Mpc.SPEED_XY) Mpc.SPEED_XY))
                   (np_zeros action_dim)))) ->
    within_speed Mpc.SPEED_XY Mpc.SPEED_Z a).
  { intros a ->. unfold within_speed.
    rewrite dpos_of_set_each by apply np_zeros_length.
    repeat split; apply np_clip_abs; discriminate. }
  destruct (Qltb _ Mpc.TOL_FINE).
  - simpl. some_subst. apply Hw. reflexivity.
  - rewrite mpc_end_issued. some_subst. apply Hw. reflexivity.
Qed.

Lemma mpc_tick_within (T : Mpc.task) (t0 : Q) (s : Mpc.vars) (w : W) (act : action) :
  Mpc.issued (Mpc.tick T t0 s w) = Some act ->
  within_speed Mpc.SPEED_XY Mpc.SPEED_Z act.
Proof.
  unfold Mpc.tick.
  destruct (Qltb _ Mpc.TOL_FINE); [discriminate|].
  destruct (time_time w) as [now w1].
  destruct (Qltb Mpc.TIMEOUT_SEC _); [discriminate|].
  destruct (Mpc.state _).
  - unfold Mpc.approach_branch. destruct (env_step _ w1) as [o w2].
    rewrite mpc_end_issued. some_subst. apply mpc_make_act_within.
  - unfold Mpc.lower_branch. destruct (env_step _ w1) as [o w2].
    rewrite mpc_end_issued. some_subst. apply mpc_make_act_within.
  - apply mpc_seek_within.
  - unfold Mpc.seek_lift_branch. destruct (env_step _ w1) as [o w2].
    rewrite mpc_end_issued. some_subst. apply mpc_make_act_within.
  - apply mpc_mpc_within.
Qed.

End Actions.

(** C1. On every pass of either loop, the action sent to the simulation has
    its three position-delta components within the speed limits: x and y
    within [SPEED_XY], z within [SPEED_Z], whatever the phase. *)
Theorem action_within_speed_limits :
  (forall (L : Linalg) (W : Type) (Sim : Simulator W)
          (T : Pid.task) (t0 : Q) (s : Pid.vars) (w : W) (act : action),
      Pid.issued (Pid.tick T t0 s w) = Some act ->
      within_speed Pid.SPEED_XY Pid.SPEED_Z act)
  /\
  (forall (L : Linalg) (W : Type) (Sim : Simulator W)
          (T : Mpc.task) (t0 : Q) (s : Mpc.vars) (w : W) (act : action),
      Mpc.issued (Mpc.tick T t0 s w) = Some act ->
      within_speed Mpc.SPEED_XY Mpc.SPEED_Z act).
Proof.
  split; intros L W Sim T t0 s w act H.
  - exact (pid_tick_within T t0 s w act H).
  - exact (mpc_tick_within T t0 s w act H).
Qed.

Lemma action_within_speed_limits_witness :
  (exists act,
      Pid.issued (Pid.tick pid_task 0 (pid_vars obs_far Pid.approach [])
                    (world 0 [0.5] [] None)) = Some act
      /\ within_speed Pid.SPEED_XY Pid.SPEED_Z act)
  /\
  (exists act,
      Mpc.issued (Mpc.tick mpc_task 0 (mpc_vars obs_far Mpc.seek)
                    (world 0 [0.5] [] None)) = Some act
      /\ within_speed Mpc.SPEED_XY Mpc.SPEED_Z act).
Proof.
  split; eexists; split.
  - vm_compute. reflexivity.
  - apply (proj1 action_within_speed_limits norm_up_linalg script script_sim
             pid_task 0 (pid_vars obs_far Pid.approach [])
             (world 0 [0.5] [] None)).
    vm_compute. reflexivity.
  - vm_compute. reflexivity.
  - apply (proj2 action_within_speed_limits norm_up_linalg script script_sim
             mpc_task 0 (mpc_vars obs_far Mpc.seek)
             (world 0 [0.5] [] None)).
    vm_compute. reflexivity.
Defined.

(** ** The success and timeout guards *)

Section Guards.
Context {L : Linalg} {W : Type} {Sim : Simulator W}.

(** The PID script only ever writes "success" to [status] on the pass that
    breaks: while the loop runs, [status] keeps its initial "timeout". *)
Lemma pid_status_kept (T : Pid.task) (t0 : Q) (s s' : Pid.vars) (w w' : W)
    (act : option action) :
  Pid.tick T t0 s w = Pid.Continue s' w' act -> Pid.status s' = Pid.status s.
Proof.
  unfold Pid.tick. destruct (time_time w) as [now w1].
  destruct (Qltb Pid.MAX_TIME _); [discriminate|].
  destruct (Qltb (Pid.err_of T (Pid.obs s)) Pid.TOL_FINE); [discriminate|].
  assert (Hb : Pid.status (Pid.bookkeeping T (now - t0) s) = Pid.status s).
  { unfold Pid.bookkeeping. destruct (sample_loop _ _ _ _ _). reflexivity. }
  revert Hb. generalize (Pid.bookkeeping T (now - t0) s). intros b Hb.
  assert (Hsend : forall a (x : Pid.vars) r,
    Pid.send a x w1 = Pid.Continue s' w' r -> Pid.status s' = Pid.status x).
  { intros a x r. unfold Pid.send. destruct (env_step a w1).
    intros [= <- _ _]. reflexivity. }
  destruct (Pid.phase b).
  - unfold Pid.approach_branch, Pid.fallback. intro E.
    apply Hsend in E. rewrite E, <- Hb. destruct (Qltb _ 0.005); reflexivity.
  - unfold Pid.lower_branch, Pid.fallback. intro E.
    apply Hsend in E. rewrite E, <- Hb. destruct (Qltb _ 0.0008); reflexivity.
  - unfold Pid.push_branch.
    destruct (Qltb Pid.REAPP_THRESH _).
    { intros [= <- _ _]. exact Hb. }
    destruct (_ && _)%bool.
    { intros [= <- _ _]. exact Hb. }
    intro E. apply Hsend in E. congruence.
Qed.

Lemma mpc_success_first (T : Mpc.task) (t0 : Q) (s : Mpc.vars) (w : W) :
  Mpc.err_of T (Mpc.obs s) < Mpc.TOL_FINE ->
  Mpc.tick T t0 s w = Mpc.Break Mpc.top_success (Mpc.set_status success s) w None.
Proof.
  intro H. unfold Mpc.tick. apply Qltb_lt in H. rewrite H. reflexivity.
Qed.

Lemma pid_success_in_time (T : Pid.task) (t0 : Q) (s : Pid.vars) (w : W) :
  Pid.err_of T (Pid.obs s) < Pid.TOL_FINE ->
  fst (time_time w) - t0 <= Pid.MAX_TIME ->
  Pid.tick T t0 s w =
    Pid.Break
      (Pid.set_status success (Pid.bookkeeping T (fst (time_time w) - t0) s))
      (snd (time_time w)).
Proof.
  intros He Ht. unfold Pid.tick. destruct (time_time w) as [now w1]. simpl in *.
  apply Qltb_ge in Ht. rewrite Ht.
  apply Qltb_lt in He. rewrite He. reflexivity.
Qed.

Lemma pid_timeout_first (T : Pid.task) (t0 : Q) (s : Pid.vars) (w : W) :
  Pid.MAX_TIME < fst (time_time w) - t0 ->
  Pid.tick T t0 s w = Pid.Break s (snd (time_time w)).
Proof.
  intro Ht. unfold Pid.tick. destruct (time_time w) as [now w1]. simpl in *.
  apply Qltb_lt in Ht. rewrite Ht. reflexivity.
Qed.

Lemma mpc_timeout_second (T : Mpc.task) (t0 : Q) (s : Mpc.vars) (w : W) :
  Mpc.TOL_FINE <= Mpc.err_of T (Mpc.obs s) ->
  Mpc.TIMEOUT_SEC < fst (time_time w) - t0 ->
  Mpc.tick T t0 s w =
    Mpc.Break Mpc.timeout_guard (Mpc.set_status timeout s) (snd (time_time w)) None.
Proof.
  intros He Ht. unfold Mpc.tick.
  apply Qltb_ge in He. rewrite He.
  destruct (time_time w) as [now w1]. simpl in *.
  apply Qltb_lt in Ht. rewrite Ht. reflexivity.
Qed.

End Guards.

(** C2, as the code has it.  An error below [TOL_FINE] at the start of a pass
    ends the MPC trial on that pass with status "success", whatever the phase
    and the clock; it ends the PID trial on that pass with status "success"
    when the elapsed time does not exceed [MAX_TIME], the timeout guard being
    the first statement of the PID loop. *)
Theorem success_on_fine_error :
  (forall (L : Linalg) (W : Type) (Sim : Simulator W)
          (T : Mpc.task) (t0 : Q) (s : Mpc.vars) (w : W),
      Mpc.err_of T (Mpc.obs s) < Mpc.TOL_FINE ->
      exists s', Mpc.tick T t0 s w = Mpc.Break Mpc.top_success s' w None
                 /\ Mpc.status s' = success)
  /\
  (forall (L : Linalg) (W : Type) (Sim : Simulator W)
          (T : Pid.task) (t0 : Q) (s : Pid.vars) (w : W),
      Pid.err_of T (Pid.obs s) < Pid.TOL_FINE ->
      fst (time_time w) - t0 <= Pid.MAX_TIME ->
      exists s', Pid.tick T t0 s w = Pid.Break s' (snd (time_time w))
                 /\ Pid.status s' = success).
Proof.
  split; intros L W Sim T t0 s w He.
  - eexists. split; [apply mpc_success_first; exact He | reflexivity].
  - intro Ht. eexists. split; [apply pid_success_in_time; assumption | reflexivity].
Qed.

Lemma success_on_fine_error_witness :
  (exists s', Mpc.tick mpc_task 0 (mpc_vars obs_near Mpc.seek_lift)
                (world 0 [31] [] None)
              = Mpc.Break Mpc.top_success s' (world 0 [31] [] None) None
              /\ Mpc.status s' = success)
  /\
  (exists s', Pid.tick pid_task 0 (pid_vars obs_near Pid.push [])
                (world 0 [5] [] None)
              = Pid.Break s' (snd (time_time (world 0 [5] [] None)))
              /\ Pid.status s' = success).
Proof.
  split.
  - apply (proj1 success_on_fine_error norm_up_linalg script script_sim).
    vm_compute. reflexivity.
  - apply (proj2 success_on_fine_error norm_up_linalg script script_sim).
    + vm_compute. reflexivity.
    + vm_compute. discriminate.
Defined.

(** C2 as stated fails in the PID script: with the cube 8 mm from the goal
    and 181 s on the clock, the pass breaks on the timeout guard and the
    status stays "timeout". *)
Lemma pid_fine_error_after_timeout :
  ~ (Pid.err_of pid_task obs_near < Pid.TOL_FINE ->
     exists s' w',
       Pid.tick pid_task 0 (pid_vars obs_near Pid.push []) (world 0 [181] [] None)
       = Pid.Break s' w'
       /\ Pid.status s' = success).
Proof.
  intro H. destruct H as (s' & w' & E & St).
  - vm_compute. reflexivity.
  - vm_compute in E. injection E as <- _. discriminate St.
Qed.

(** C3, as the code has it.  An elapsed time above the budget ends the PID
    trial on that pass with status "timeout" for every error magnitude; it
    ends the MPC trial on that pass with status "timeout" when the error is
    not below [TOL_FINE], the success check being the first statement of the
    MPC loop. *)
Theorem timeout_on_budget_exceeded :
  (forall (L : Linalg) (W : Type) (Sim : Simulator W)
          (T : Pid.task) (t0 : Q) (s : Pid.vars) (w : W),
      Pid.status s = timeout ->
      Pid.MAX_TIME < fst (time_time w) - t0 ->
      exists s', Pid.tick T t0 s w = Pid.Break s' (snd (time_time w))
                 /\ Pid.status s' = timeout)
  /\
  (forall (L : Linalg) (W : Type) (Sim : Simulator W)
          (T : Mpc.task) (t0 : Q) (s : Mpc.vars) (w : W),
      Mpc.TOL_FINE <= Mpc.err_of T (Mpc.obs s) ->
      Mpc.TIMEOUT_SEC < fst (time_time w) - t0 ->
      exists s', Mpc.tick T t0 s w
                 = Mpc.Break Mpc.timeout_guard s' (snd (time_time w)) None
                 /\ Mpc.status s' = timeout).
Proof.
  split; intros L W Sim T t0 s w.
  - intros St Ht. exists s. split; [apply pid_timeout_first; exact Ht | exact St].
  - intros He Ht. eexists.
    split; [apply mpc_timeout_second; assumption | reflexivity].
Qed.

Lemma timeout_on_budget_exceeded_witness :
  (exists s', Pid.tick pid_task 0 (pid_vars obs_near Pid.push [])
                (world 0 [181] [] None)
              = Pid.Break s' (snd (time_time (world 0 [181] [] None)))
              /\ Pid.status s' = timeout)
  /\
  (exists s', Mpc.tick mpc_task 0 (mpc_vars obs_far Mpc.mpc)
                (world 0 [31] [] None)
              = Mpc.Break Mpc.timeout_guard s'
                  (snd (time_time (world 0 [31] [] None))) None
              /\ Mpc.status s' = timeout).
Proof.
  split.
  - apply (proj1 timeout_on_budget_exceeded norm_up_linalg script script_sim).
    + reflexivity.
    + vm_compute. reflexivity.
  - apply (proj2 timeout_on_budget_exceeded norm_up_linalg script script_sim).
    + vm_compute. discriminate.
    + vm_compute. reflexivity.
Defined.

(** C3 as stated fails in the MPC script: with the cube 8 mm from the goal
    and 31 s on the clock, the pass breaks on the success check and the
    status is "success". *)
Lemma mpc_timeout_after_fine_error :
  ~ (Mpc.TIMEOUT_SEC < fst (time_time (world 0 [31] [] None)) - 0 ->
     exists site s' w' act,
       Mpc.tick mpc_task 0 (mpc_vars obs_near Mpc.mpc) (world 0 [31] [] None)
       = Mpc.Break site s' w' act
       /\ Mpc.status s' = timeout).
Proof.
  intro H. destruct H as (site & s' & w' & act & E & St).
  - vm_compute. reflexivity.
  - vm_compute in E. injection E as _ <- _ _. discriminate St.
Qed.

(** ** The stall guard of the PID script *)

Section Stall.
Context {L : Linalg} {W : Type} {Sim : Simulator W}.

Lemma stall_maxlen_60 : Pid.stall_maxlen = 60%nat.
Proof. reflexivity. Qed.

Lemma pid_bookkeeping_fields (T : Pid.task) (e : Q) (s : Pid.vars) :
  Pid.obs (Pid.bookkeeping T e s) = Pid.obs s
  /\ Pid.phase (Pid.bookkeeping T e s) = Pid.phase s
  /\ Pid.step (Pid.bookkeeping T e s) = Pid.step s
  /\ Pid.status (Pid.bookkeeping T e s) = Pid.status s
  /\ Pid.stall_buf (Pid.bookkeeping T e s)
     = deque_append Pid.stall_maxlen (Pid.stall_buf s) (Pid.err_of T (Pid.obs s)).
Proof.
  unfold Pid.bookkeeping. destruct (sample_loop _ _ _ _ _). simpl. tauto.
Qed.

(** A pass that reaches the phase machine in the push phase with the stall
    condition true hands over to approach without sending an action; the
    buffer is the one the pass appended to. *)
Lemma pid_stall_reapproach (T : Pid.task) (t0 : Q) (s : Pid.vars) (w : W) :
  Pid.phase s = Pid.push ->
  fst (time_time w) - t0 <= Pid.MAX_TIME ->
  Pid.TOL_FINE <= Pid.err_of T (Pid.obs s) ->
  let buf := deque_append Pid.stall_maxlen (Pid.stall_buf s)
               (Pid.err_of T (Pid.obs s)) in
  List.length buf = Pid.stall_maxlen ->
  hd 0 buf - Pid.err_of T (Pid.obs s) < Pid.STALL_THRESH ->
  Pid.tick T t0 s w =
    Pid.Continue
      (Pid.set_phase Pid.approach (Pid.bookkeeping T (fst (time_time w) - t0) s))
      (snd (time_time w)) None.
Proof.
  intros Hp Ht He buf Hlen Hstall. unfold Pid.tick.
  destruct (time_time w) as [now w1]. cbn [fst snd] in *.
  apply Qltb_ge in Ht. rewrite Ht.
  apply Qltb_ge in He. rewrite He.
  destruct (pid_bookkeeping_fields T (now - t0) s) as (Ho & Hph & _ & _ & Hb).
  rewrite Hph, Hp. unfold Pid.push_branch.
  destruct (Qltb Pid.REAPP_THRESH _); [reflexivity|].
  rewrite Hb, Ho. fold buf. rewrite Hlen, Nat.eqb_refl.
  apply Qltb_lt in Hstall. unfold Pid.err_of in Hstall |- *.
  rewrite Hstall. reflexivity.
Qed.

(** The buffer is emptied where the lower phase hands over to push. *)
Lemma pid_lower_to_push_clears (T : Pid.task) (t0 : Q) (s : Pid.vars) (w : W) :
  Pid.phase s = Pid.lower ->
  fst (time_time w) - t0 <= Pid.MAX_TIME ->
  Pid.TOL_FINE <= Pid.err_of T (Pid.obs s) ->
  Qabs (z3 (robot0_eef_pos (Pid.obs s)) - (Pid.WRIST_Z T + 0.001)) < 0.0008 ->
  exists s' w' act,
    Pid.tick T t0 s w = Pid.Continue s' w' act
    /\ Pid.phase s' = Pid.push /\ Pid.stall_buf s' = [].
Proof.
  intros Hp Ht He Hz. unfold Pid.tick.
  destruct (time_time w) as [now w1]. cbn [fst snd] in *.
  apply Qltb_ge in Ht. rewrite Ht.
  apply Qltb_ge in He. rewrite He.
  destruct (pid_bookkeeping_fields T (now - t0) s) as (Ho & Hph & _ & _ & _).
  rewrite Hph, Hp. unfold Pid.lower_branch. rewrite Ho.
  apply Qltb_lt in Hz. rewrite Hz.
  unfold Pid.fallback, Pid.send. destruct (env_step _ w1) as [o w2].
  do 3 eexists. split; [reflexivity|]. split; reflexivity.
Qed.

End Stall.

(** C4, as the code has it.  In the PID script, on a pass in the push phase
    that gets past the timeout guard and the success check, if the stall
    buffer (with the current error appended) is full and its oldest entry
    exceeds the current error by less than [STALL_THRESH], the pass ends in
    the approach phase without sending an action, and the stall buffer is
    kept as it is; the buffer is emptied on the pass in which the lower phase
    hands over to push. *)
Theorem stall_forces_reapproach :
  (forall (L : Linalg) (W : Type) (Sim : Simulator W)
          (T : Pid.task) (t0 : Q) (s : Pid.vars) (w : W),
      Pid.phase s = Pid.push ->
      fst (time_time w) - t0 <= Pid.MAX_TIME ->
      Pid.TOL_FINE <= Pid.err_of T (Pid.obs s) ->
      let buf := deque_append Pid.stall_maxlen (Pid.stall_buf s)
                   (Pid.err_of T (Pid.obs s)) in
      List.length buf = Pid.stall_maxlen ->
      hd 0 buf - Pid.err_of T (Pid.obs s) < Pid.STALL_THRESH ->
      exists s',
        Pid.tick T t0 s w = Pid.Continue s' (snd (time_time w)) None
        /\ Pid.phase s' = Pid.approach
        /\ Pid.stall_buf s' = buf)
  /\
  (forall (L : Linalg) (W : Type) (Sim : Simulator W)
          (T : Pid.task) (t0 : Q) (s : Pid.vars) (w : W),
      Pid.phase s = Pid.lower ->
      fst (time_time w) - t0 <= Pid.MAX_TIME ->
      Pid.TOL_FINE <= Pid.err_of T (Pid.obs s) ->
      Qabs (z3 (robot0_eef_pos (Pid.obs s)) - (Pid.WRIST_Z T + 0.001)) < 0.0008 ->
      exists s' w' act,
        Pid.tick T t0 s w = Pid.Continue s' w' act
        /\ Pid.phase s' = Pid.push /\ Pid.stall_buf s' = []).
Proof.
  split; intros L W Sim T t0 s w Hp Ht He.
  - intros buf Hlen Hstall. eexists. split.
    + apply pid_stall_reapproach; assumption.
    + split; [reflexivity|].
      apply (pid_bookkeeping_fields T (fst (time_time w) - t0) s).
  - intro Hz. apply pid_lower_to_push_clears; assumption.
Qed.

Lemma stall_forces_reapproach_witness :
  (pid_lateral pid_task obs_push <= Pid.REAPP_THRESH
   /\ exists s',
        Pid.tick pid_task 0 (pid_vars obs_push Pid.push stalled_buf)
          (world 0 [10] [] None)
        = Pid.Continue s' (snd (time_time (world 0 [10] [] None))) None
        /\ Pid.phase s' = Pid.approach
        /\ Pid.stall_buf s'
           = deque_append Pid.stall_maxlen stalled_buf
               (Pid.err_of pid_task obs_push))
  /\
  (exists s' w' act,
      Pid.tick pid_task 0 (pid_vars obs_low Pid.lower stalled_buf)
        (world 0 [10] [] None)
      = Pid.Continue s' w' act
      /\ Pid.phase s' = Pid.push /\ Pid.stall_buf s' = []).
Proof.
  split; [split|].
  - vm_compute. discriminate.
  - apply (proj1 stall_forces_reapproach norm_up_linalg script script_sim
             pid_task 0 (pid_vars obs_push Pid.push stalled_buf)
             (world 0 [10] [] None)).
    + reflexivity.
    + vm_compute. discriminate.
    + vm_compute. discriminate.
    + vm_compute. reflexivity.
    + vm_compute. reflexivity.
  - apply (proj2 stall_forces_reapproach norm_up_linalg script script_sim
             pid_task 0 (pid_vars obs_low Pid.lower stalled_buf)
             (world 0 [10] [] None)).
    + reflexivity.
    + vm_compute. discriminate.
    + vm_compute. discriminate.
    + vm_compute. reflexivity.
Defined.

(** C4 as stated fails on its last part.  The end-effector is in pushing
    position (the cube is 2.8 mm off the push line, far below
    [REAPP_THRESH], so line 90 does not fire) and the window is full of
    errors without progress: the stall test of line 91 sends the pass back to
    approach, and the buffer still holds its 60 entries. *)
Lemma stall_buffer_not_cleared :
  ~ (Pid.phase (pid_vars obs_push Pid.push stalled_buf) = Pid.push ->
     pid_lateral pid_task obs_push <= Pid.REAPP_THRESH ->
     List.length
       (deque_append Pid.stall_maxlen stalled_buf (Pid.err_of pid_task obs_push))
     = Pid.stall_maxlen ->
     hd 0 (deque_append Pid.stall_maxlen stalled_buf (Pid.err_of pid_task obs_push))
       - Pid.err_of pid_task obs_push < Pid.STALL_THRESH ->
     exists s' w' act,
       Pid.tick pid_task 0 (pid_vars obs_push Pid.push stalled_buf)
         (world 0 [10] [] None)
       = Pid.Continue s' w' act
       /\ Pid.phase s' = Pid.approach /\ Pid.stall_buf s' = []).
Proof.
  intro H. destruct H as (s' & w' & act & E & _ & Hbuf).
  - reflexivity.
  - vm_compute. discriminate.
  - vm_compute. reflexivity.
  - vm_compute. reflexivity.
  - vm_compute in E. injection E as <- _ _. discriminate Hbuf.
Qed.

(** It is the stall test that decides there: from the same observation, a
    full window over which the error came down from 0.19 m keeps the pass in
    push, with an action sent. *)
Lemma push_goes_on_with_progress :
  exists s' w' act,
    Pid.tick pid_task 0 (pid_vars obs_push Pid.push progress_buf)
      (world 0 [10] [] None)
    = Pid.Continue s' w' (Some act)
    /\ Pid.phase s' = Pid.push.
Proof.
  do 3 eexists. split; [vm_compute; reflexivity | reflexivity].
Qed.

(** ** Sampling the error once per second *)

Lemma inject_Z_succ (n : Z) : inject_Z n + 1 = inject_Z (n + 1).
Proof.
  unfold inject_Z, Qplus. simpl. f_equal. lia.
Qed.

Lemma py_int_inject_Z (n : Z) : py_int (inject_Z n) = n.
Proof.
  unfold py_int, inject_Z. simpl. apply Z.quot_1_r.
Qed.

Lemma inject_Z_le_floor (n : Z) (q : Q) : inject_Z n <= q <-> (n <= Qfloor q)%Z.
Proof.
  split; intro H.
  - rewrite <- (Qfloor_Z n). apply Qfloor_resp_le. exact H.
  - apply Qle_trans with (inject_Z (Qfloor q)); [|apply Qfloor_le].
    rewrite <- Zle_Qle. exact H.
Qed.

Lemma Qfloor_minus_Z (q : Q) (n : Z) : Qfloor (q - inject_Z n) = (Qfloor q - n)%Z.
Proof.
  apply Z.le_antisymm.
  - assert (H : (Qfloor (q - inject_Z n) + n <= Qfloor q)%Z); [|lia].
    apply inject_Z_le_floor. rewrite inject_Z_plus.
    pose proof (Qfloor_le (q - inject_Z n)). lra.
  - apply inject_Z_le_floor. unfold Zminus. rewrite inject_Z_plus, inject_Z_opp.
    pose proof (Qfloor_le q). lra.
Qed.

(** With the fuel [tick] gives it, the loop stops because its condition is
    false, not because the fuel ran out. *)
Lemma sample_loop_exit (fuel : nat) (elapsed err ns : Q) (smp : list (Z * Q)) :
  (Qfloor (elapsed - ns) + 1 <= Z.of_nat fuel)%Z ->
  elapsed < fst (sample_loop fuel elapsed err ns smp).
Proof.
  revert ns smp. induction fuel as [|f IH]; intros ns smp Hf.
  - cbn [sample_loop fst]. pose proof (Qlt_floor (elapsed - ns)) as Hlt.
    assert (Hz : inject_Z (Qfloor (elapsed - ns) + 1) <= inject_Z 0).
    { rewrite <- Zle_Qle. exact Hf. }
    change (inject_Z 0) with 0 in Hz. lra.
  - cbn [sample_loop]. destruct (Qle_bool ns elapsed) eqn:E.
    + apply IH.
      assert (Hs : elapsed - (ns + 1) == (elapsed - ns) - inject_Z 1) by
        (change (inject_Z 1) with 1; ring).
      rewrite (Qfloor_comp _ _ Hs), Qfloor_minus_Z. lia.
    + cbn [fst]. apply Qnot_le_lt. intro Hle. apply Qle_bool_iff in Hle. congruence.
Qed.

Lemma sample_loop_fuel_enough (elapsed err ns : Q) (smp : list (Z * Q)) :
  elapsed < fst (sample_loop (sample_fuel elapsed ns) elapsed err ns smp).
Proof.
  apply sample_loop_exit. unfold sample_fuel. lia.
Qed.

(** From a whole [next_sample], the loop appends the whole seconds up to
    the elapsed time, each with the error of the pass. *)
Lemma sample_loop_whole (k : nat) (elapsed err : Q) (n : Z) (smp : list (Z * Q)) :
  Z.of_nat k = Z.max 0 (Qfloor elapsed - n + 1) ->
  sample_loop k elapsed err (inject_Z n) smp
  = (inject_Z (n + Z.of_nat k),
     smp ++ map (fun i => (i, err)) (seconds_from k n)).
Proof.
  revert n smp. induction k as [|k IH]; intros n smp Hk.
  - simpl. rewrite Z.add_0_r, app_nil_r. reflexivity.
  - assert (Hle : (n <= Qfloor elapsed)%Z) by lia.
    apply inject_Z_le_floor, Qle_bool_iff in Hle.
    cbn [sample_loop]. rewrite Hle, inject_Z_succ, py_int_inject_Z.
    rewrite IH by lia.
    cbn [seconds_from map]. rewrite <- app_assoc. cbn [app].
    f_equal. f_equal. lia.
Qed.

Section Sampling.
Context {L : Linalg} {W : Type} {Sim : Simulator W}.

(** Past the timeout guard, what a PID pass leaves in [samples],
    [next_sample] and [t_finish] is what its bookkeeping lines computed. *)
Lemma pid_tick_keeps_bookkeeping (T : Pid.task) (t0 : Q) (s : Pid.vars) (w : W) :
  fst (time_time w) - t0 <= Pid.MAX_TIME ->
  let b := Pid.bookkeeping T (fst (time_time w) - t0) s in
  let s' := Pid.vars_after (Pid.tick T t0 s w) in
  Pid.samples s' = Pid.samples b
  /\ Pid.next_sample s' = Pid.next_sample b
  /\ Pid.t_finish s' = Pid.t_finish b.
Proof.
  intro Ht. unfold Pid.tick.
  destruct (time_time w) as [now w1]. cbn [fst snd] in *.
  apply Qltb_ge in Ht. rewrite Ht. cbv zeta.
  generalize (Pid.bookkeeping T (now - t0) s). intro b.
  destruct (Qltb (Pid.err_of T (Pid.obs s)) Pid.TOL_FINE); [cbn; tauto|].
  assert (Hsend : forall a (x : Pid.vars),
    let r := Pid.vars_after (Pid.send a x w1) in
    Pid.samples r = Pid.samples x /\ Pid.next_sample r = Pid.next_sample x
    /\ Pid.t_finish r = Pid.t_finish x).
  { intros a x. unfold Pid.send. destruct (env_step a w1). cbn. tauto. }
  destruct (Pid.phase b).
  - unfold Pid.approach_branch, Pid.fallback.
    destruct (Qltb _ 0.005);
      [exact (Hsend _ (Pid.set_phase Pid.lower b)) | apply Hsend].
  - unfold Pid.lower_branch, Pid.fallback.
    destruct (Qltb _ 0.0008);
      [exact (Hsend _ (Pid.clear_stall_buf (Pid.set_phase Pid.push b)))
      | apply Hsend].
  - unfold Pid.push_branch.
    destruct (Qltb Pid.REAPP_THRESH _); [cbn; tauto|].
    destruct (_ && _)%bool; [cbn; tauto|].
    apply Hsend.
Qed.

Lemma pid_bookkeeping_samples (T : Pid.task) (e : Q) (s : Pid.vars) (n : Z) :
  Pid.next_sample s = inject_Z n ->
  let k := Z.to_nat (Qfloor e - n + 1) in
  let b := Pid.bookkeeping T e s in
  Pid.samples b
  = Pid.samples s ++ map (fun i => (i, Pid.err_of T (Pid.obs s))) (seconds_from k n)
  /\ Pid.next_sample b = inject_Z (n + Z.of_nat k).
Proof.
  intros Hn k b. subst b. unfold Pid.bookkeeping.
  rewrite Hn. unfold sample_fuel. rewrite Qfloor_minus_Z. fold k.
  rewrite sample_loop_whole by (subst k; lia).
  cbn. tauto.
Qed.

Lemma seconds_from_app (a b : nat) (n : Z) :
  seconds_from a n ++ seconds_from b (n + Z.of_nat a) = seconds_from (a + b) n.
Proof.
  revert n. induction a as [|a IH]; intro n.
  - cbn. rewrite Z.add_0_r. reflexivity.
  - cbn [seconds_from app Nat.add]. f_equal.
    rewrite <- IH. do 2 f_equal. lia.
Qed.

Lemma map_fst_stamped (err : Q) (l : list Z) :
  map fst (map (fun i : Z => (i, err)) l) = l.
Proof.
  induction l as [|i l IH]; cbn; [reflexivity | now rewrite IH].
Qed.

(** Every PID pass that gets past the timeout guard keeps the record of
    seconds gap-free. *)
Lemma pid_sampled_below_kept (T : Pid.task) (t0 : Q) (s : Pid.vars) (w : W) (n : Z) :
  sampled_below n s ->
  fst (time_time w) - t0 <= Pid.MAX_TIME ->
  sampled_below (Z.max n (Qfloor (fst (time_time w) - t0) + 1))
    (Pid.vars_after (Pid.tick T t0 s w)).
Proof.
  intros (Hn1 & Hns & Hsec) Ht.
  destruct (pid_tick_keeps_bookkeeping T t0 s w Ht) as (Hs & Hn & _).
  destruct (pid_bookkeeping_samples T (fst (time_time w) - t0) s n Hns) as (Bs & Bn).
  set (e := fst (time_time w) - t0) in *.
  set (k := Z.to_nat (Qfloor e - n + 1)) in *.
  assert (Hmax : Z.max n (Qfloor e + 1) = (n + Z.of_nat k)%Z) by (subst k; lia).
  rewrite Hmax. repeat split.
  - lia.
  - rewrite Hn. exact Bn.
  - rewrite Hs, Bs, map_app, map_fst_stamped, Hsec.
    replace n with (1 + Z.of_nat (Z.to_nat (n - 1)))%Z at 2 by lia.
    rewrite seconds_from_app. f_equal. lia.
Qed.

Lemma pid_init_sampled_below (obs0 : observation) :
  sampled_below 1 (Pid.init_vars obs0).
Proof.
  repeat split. reflexivity.
Qed.

(** Whenever the PID loop ends, the seconds on record are 1, 2, ..., n-1 for
    some n: no second is skipped and none is recorded twice. *)
Lemma pid_loop_sampled_below (fuel : nat) (T : Pid.task) (t0 : Q)
    (s s' : Pid.vars) (w w' : W) (n : Z) :
  sampled_below n s ->
  Pid.loop fuel T t0 s w = Some (s', w') ->
  exists n', (n <= n')%Z /\ sampled_below n' s'.
Proof.
  revert s w n. induction fuel as [|f IH]; intros s w n Hinv; [discriminate|].
  cbn [Pid.loop].
  destruct (Qlt_le_dec Pid.MAX_TIME (fst (time_time w) - t0)) as [Hlt|Hle].
  - rewrite (pid_timeout_first T t0 s w Hlt). intros [= <- _].
    exists n. split; [lia | exact Hinv].
  - pose proof (pid_sampled_below_kept T t0 s w n Hinv Hle) as Hstep.
    destruct (Pid.tick T t0 s w) as [s1 w1|s1 w1 a]; cbn in Hstep.
    + intros [= <- _]. eexists. split; [|exact Hstep]. lia.
    + intro E. destruct (IH s1 w1 _ Hstep E) as (n' & Hn' & Hinv').
      exists n'. split; [lia | exact Hinv'].
Qed.

End Sampling.

(** C5, as the code has it.  In the PID script, a pass that gets past the
    timeout guard with the next sample due at second [n] appends one sample
    (second, error of this pass) for every whole second from [n] up to the
    elapsed time, all on that pass; so when the seconds below [n] are on
    record and the elapsed time is 3.4 s, the record holds exactly the
    seconds 1, 2 and 3. *)
Theorem pid_samples_every_crossed_second :
  forall (L : Linalg) (W : Type) (Sim : Simulator W)
         (T : Pid.task) (t0 : Q) (s : Pid.vars) (w : W) (n : Z),
    sampled_below n s ->
    fst (time_time w) - t0 <= Pid.MAX_TIME ->
    let e := fst (time_time w) - t0 in
    let k := Z.to_nat (Qfloor e - n + 1) in
    let s' := Pid.vars_after (Pid.tick T t0 s w) in
    Pid.samples s'
    = Pid.samples s ++ map (fun i => (i, Pid.err_of T (Pid.obs s))) (seconds_from k n)
    /\ Pid.next_sample s' = inject_Z (n + Z.of_nat k)
    /\ (e == 3.4 -> (n <= 4)%Z -> map fst (Pid.samples s') = [1; 2; 3]%Z).
Proof.
  intros L W Sim T t0 s w n Hinv Ht e k s'.
  destruct (pid_tick_keeps_bookkeeping T t0 s w Ht) as (Hs & Hn & _).
  destruct Hinv as (Hn1 & Hns & Hsec).
  destruct (pid_bookkeeping_samples T e s n Hns) as (Bs & Bn).
  fold e in Hs, Hn. fold s' in Hs, Hn. fold k in Bs, Bn.
  split; [congruence|]. split; [congruence|].
  intros He Hn4.
  pose proof (pid_sampled_below_kept T t0 s w n (conj Hn1 (conj Hns Hsec)) Ht)
    as (_ & _ & Hall).
  fold e in Hall. fold s' in Hall. rewrite Hall.
  rewrite (Qfloor_comp _ _ He).
  replace (Z.max n (Qfloor 3.4 + 1)) with 4%Z by (change (Qfloor 3.4) with 3%Z; lia).
  reflexivity.
Qed.

Lemma pid_samples_every_crossed_second_witness :
  let s := pid_vars obs_far Pid.approach [] in
  let w := world 0 [3.4] [] None in
  let s' := Pid.vars_after (Pid.tick pid_task 0 s w) in
  Pid.samples s'
  = map (fun i => (i, Pid.err_of pid_task obs_far)) [1; 2; 3]%Z
  /\ Pid.next_sample s' = inject_Z 4
  /\ map fst (Pid.samples s') = [1; 2; 3]%Z.
Proof.
  intros s w s'.
  assert (Hinv : sampled_below 1 s) by (repeat split; reflexivity).
  assert (Ht : fst (time_time w) - 0 <= Pid.MAX_TIME) by (vm_compute; discriminate).
  destruct (pid_samples_every_crossed_second norm_up_linalg script script_sim
              pid_task 0 s w 1%Z Hinv Ht) as (Hs & Hn & H34).
  split; [exact Hs|]. split; [exact Hn|].
  apply H34; [vm_compute; reflexivity | lia].
Defined.

(** C5 as stated fails in the MPC script, which samples with [if], not
    [while]: a pass at 2.5 s with the first sample still due records second 1
    only. *)
Lemma mpc_one_sample_per_pass :
  let s := mpc_vars obs_far Mpc.approach in
  let s' := Mpc.vars_after s (Mpc.tick mpc_task 0 s (world 0 [2.5] [] None)) in
  map fst (Mpc.samples s') = [1]%Z /\ map fst (Mpc.samples s') <> [1; 2]%Z.
Proof.
  vm_compute. split; [reflexivity | discriminate].
Qed.

(** ** Recording the finish time *)

Section FinishTime.
Context {L : Linalg} {W : Type} {Sim : Simulator W}.

(** PID: the first pass that sees an error of at most 1 cm records its
    elapsed time (and, 1 cm being below [TOL_FINE], is the last pass). *)
Lemma pid_finish_recorded (T : Pid.task) (t0 : Q) (s : Pid.vars) (w : W) :
  Pid.t_finish s = None ->
  fst (time_time w) - t0 <= Pid.MAX_TIME ->
  Pid.err_of T (Pid.obs s) <= 0.01 ->
  exists s',
    Pid.tick T t0 s w = Pid.Break s' (snd (time_time w))
    /\ Pid.t_finish s' = Some (fst (time_time w) - t0)
    /\ Pid.status s' = success.
Proof.
  intros Hnone Ht He.
  assert (Hfine : Pid.err_of T (Pid.obs s) < Pid.TOL_FINE).
  { eapply Qle_lt_trans; [exact He | reflexivity]. }
  rewrite (pid_success_in_time T t0 s w Hfine Ht).
  eexists. split; [reflexivity|]. split; [|reflexivity].
  unfold Pid.bookkeeping. destruct (sample_loop _ _ _ _ _). cbn.
  rewrite Hnone. apply Qle_bool_iff in He. rewrite He. reflexivity.
Qed.

(** PID: a recorded finish time is never written again. *)
Lemma pid_finish_kept (T : Pid.task) (t0 : Q) (s : Pid.vars) (w : W) (t : Q) :
  Pid.t_finish s = Some t ->
  Pid.t_finish (Pid.vars_after (Pid.tick T t0 s w)) = Some t.
Proof.
  intro Hsome.
  destruct (Qlt_le_dec Pid.MAX_TIME (fst (time_time w) - t0)) as [Hlt|Hle].
  - rewrite (pid_timeout_first T t0 s w Hlt). exact Hsome.
  - destruct (pid_tick_keeps_bookkeeping T t0 s w Hle) as (_ & _ & Hf).
    rewrite Hf. unfold Pid.bookkeeping. destruct (sample_loop _ _ _ _ _). cbn.
    rewrite Hsome. reflexivity.
Qed.

Lemma mpc_bookkeeping_finish (e err : Q) (s : Mpc.vars) :
  Mpc.t_finish s = None -> Mpc.TOL_FINE <= err ->
  Mpc.t_finish (Mpc.bookkeeping e err s) = None.
Proof.
  intros Hnone He. unfold Mpc.bookkeeping.
  destruct (Qle_bool (Mpc.next_sample s) e); cbn; rewrite Hnone;
    (destruct (Qle_bool err 0.01) eqn:E; [|reflexivity]);
    apply Qle_bool_iff in E; exfalso;
    apply (Qlt_not_le 0.01 Mpc.TOL_FINE); [reflexivity | | reflexivity |];
    eapply Qle_trans; eassumption.
Qed.

(** MPC: the phase branches do not touch [t_finish]. *)
Lemma mpc_branches_keep_finish (T : Mpc.task) (s0 b : Mpc.vars) (w : W) :
  Mpc.t_finish s0 = Mpc.t_finish b ->
  Mpc.t_finish
    (Mpc.vars_after s0
       match Mpc.state b with
       | Mpc.approach => Mpc.approach_branch T b w
       | Mpc.lower => Mpc.lower_branch T b w
       | Mpc.seek => Mpc.seek_branch T b w
       | Mpc.seek_lift => Mpc.seek_lift_branch T b w
       | Mpc.mpc => Mpc.mpc_branch T b w
       end)
  = Mpc.t_finish b.
Proof.
  intro H0. destruct (Mpc.state b).
  - unfold Mpc.approach_branch. destruct (env_step _ w).
    destruct (Qltb _ 0.004); reflexivity.
  - unfold Mpc.lower_branch. destruct (env_step _ w).
    destruct (Qltb _ 0.002); reflexivity.
  - unfold Mpc.seek_branch. destruct (env_step _ w).
    destruct (Qltb Mpc.CONTACT_THRESH _); reflexivity.
  - unfold Mpc.seek_lift_branch. destruct (env_step _ w).
    destruct (Qltb _ 0.004); reflexivity.
  - unfold Mpc.mpc_branch. destruct (osqp_solve _ _ _ w) as [[v|] w0]; [|exact H0].
    destruct (env_step _ w0).
    destruct (Qltb _ Mpc.TOL_FINE); [reflexivity|].
    destruct (Qltb _ Mpc.CONTACT_THRESH); reflexivity.
Qed.

(** MPC: no pass ever records a finish time, because line 104 is only
    reached with an error of at least [TOL_FINE], which is above 1 cm. *)
Lemma mpc_finish_never_recorded (T : Mpc.task) (t0 : Q) (s : Mpc.vars) (w : W) :
  Mpc.t_finish s = None ->
  Mpc.t_finish (Mpc.vars_after s (Mpc.tick T t0 s w)) = None.
Proof.
  intro Hnone. unfold Mpc.tick.
  destruct (Qltb (Mpc.err_of T (Mpc.obs s)) Mpc.TOL_FINE) eqn:He; [exact Hnone|].
  destruct (time_time w) as [now w1].
  destruct (Qltb Mpc.TIMEOUT_SEC _); [exact Hnone|].
  apply Qltb_ge in He.
  pose proof (mpc_bookkeeping_finish (now - t0) _ s Hnone He) as Hb.
  rewrite mpc_branches_keep_finish; [exact Hb | congruence].
Qed.

Lemma mpc_loop_finish_none (fuel : nat) (T : Mpc.task) (t0 : Q)
    (s s' : Mpc.vars) (w w' : W) :
  Mpc.t_finish s = None ->
  Mpc.loop fuel T t0 s w = Some (s', w') ->
  Mpc.t_finish s' = None.
Proof.
  revert s w. induction fuel as [|f IH]; intros s w Hnone; [discriminate|].
  cbn [Mpc.loop].
  pose proof (mpc_finish_never_recorded T t0 s w Hnone) as Hstep.
  destruct (Mpc.tick T t0 s w) as [site s1 w1 a| s1 w1 a|]; cbn in Hstep.
  - intros [= <- _]. exact Hstep.
  - apply IH. exact Hstep.
  - discriminate.
Qed.

End FinishTime.

(** C6.  The finish time is meant to be the elapsed time of the first pass
    that sees an error of at most 1 cm.  The PID script records it; the MPC
    script never does: with the cube 18 cm from the goal on the first pass and
    8 mm from it on the second, the MPC record reads "NaN" where the PID
    record of the same run reads "5.00". *)
Theorem mpc_finish_time_lost :
  Mpc.main 10 "push_mpc" "0" (world 0 [0; 4; 5] [obs_near] None)
  = Some "push_mpc,0,5.00,success,NaN,1s:0.180"%string
  /\ Pid.main 10 "push_pid" "0" (world 0 [0; 4; 5] [obs_near] None)
     = Some "push_pid,0,5.00,5.00,success,1s:0.180,2s:0.180,3s:0.180,4s:0.180,5s:0.008"%string.
Proof.
  split; vm_compute; reflexivity.
Qed.

(** ** Phase transitions of the MPC script *)

Section Transitions.
Context {L : Linalg} {W : Type} {Sim : Simulator W}.

Lemma mpc_bookkeeping_fields (e err : Q) (s : Mpc.vars) :
  Mpc.obs (Mpc.bookkeeping e err s) = Mpc.obs s
  /\ Mpc.state (Mpc.bookkeeping e err s) = Mpc.state s
  /\ Mpc.prev_xy (Mpc.bookkeeping e err s) = Mpc.prev_xy s.
Proof.
  unfold Mpc.bookkeeping. destruct (Qle_bool _ e); cbn; tauto.
Qed.

(** Past the success check and the timeout guard, a pass runs the branch of
    its phase on the bookkept variables. *)
Lemma mpc_tick_past_guards (T : Mpc.task) (t0 : Q) (s : Mpc.vars) (w : W) :
  Mpc.TOL_FINE <= Mpc.err_of T (Mpc.obs s) ->
  fst (time_time w) - t0 <= Mpc.TIMEOUT_SEC ->
  let b := Mpc.bookkeeping (fst (time_time w) - t0) (Mpc.err_of T (Mpc.obs s)) s in
  let w1 := snd (time_time w) in
  Mpc.tick T t0 s w =
    match Mpc.state s with
    | Mpc.approach => Mpc.approach_branch T b w1
    | Mpc.lower => Mpc.lower_branch T b w1
    | Mpc.seek_lift => Mpc.seek_lift_branch T b w1
    | Mpc.seek => Mpc.seek_branch T b w1
    | Mpc.mpc => Mpc.mpc_branch T b w1
    end.
Proof.
  intros He Ht. unfold Mpc.tick.
  apply Qltb_ge in He. rewrite He.
  destruct (time_time w) as [now w1]. cbn [fst snd] in *.
  apply Qltb_ge in Ht. rewrite Ht. cbv zeta.
  destruct (mpc_bookkeeping_fields (now - t0) (Mpc.err_of T (Mpc.obs s)) s)
    as (_ & -> & _).
  reflexivity.
Qed.

Lemma pid_tick_past_guards (T : Pid.task) (t0 : Q) (s : Pid.vars) (w : W) :
  Pid.TOL_FINE <= Pid.err_of T (Pid.obs s) ->
  fst (time_time w) - t0 <= Pid.MAX_TIME ->
  let b := Pid.bookkeeping T (fst (time_time w) - t0) s in
  let w1 := snd (time_time w) in
  Pid.tick T t0 s w =
    match Pid.phase s with
    | Pid.approach => Pid.approach_branch T b w1
    | Pid.lower => Pid.lower_branch T b w1
    | Pid.push => Pid.push_branch T b w1
    end.
Proof.
  intros He Ht. unfold Pid.tick.
  destruct (time_time w) as [now w1]. cbn [fst snd] in *.
  apply Qltb_ge in Ht. rewrite Ht.
  apply Qltb_ge in He. rewrite He. cbv zeta.
  destruct (pid_bookkeeping_fields T (now - t0) s) as (_ & -> & _).
  reflexivity.
Qed.

End Transitions.

(** C7, as the code has it.  In the MPC script, a pass in the seek phase that
    gets past the success check and the timeout guard ends in the mpc phase
    when the contact reading of the observation its simulation step returned
    is strictly above the threshold, and stays in seek otherwise; a pass in
    the seek_lift phase does not consult the contact reading: it ends in seek
    when the end-effector was within 0.004 of the lift pose and stays in
    seek_lift otherwise. *)
Theorem contact_moves_seek_to_mpc :
  (forall (L : Linalg) (W : Type) (Sim : Simulator W)
          (T : Mpc.task) (t0 : Q) (s : Mpc.vars) (w : W),
      Mpc.state s = Mpc.seek ->
      Mpc.TOL_FINE <= Mpc.err_of T (Mpc.obs s) ->
      fst (time_time w) - t0 <= Mpc.TIMEOUT_SEC ->
      exists s' w' act,
        Mpc.tick T t0 s w = Mpc.Continue s' w' act
        /\ (Mpc.CONTACT_THRESH < Mpc.contact (Mpc.obs s') -> Mpc.state s' = Mpc.mpc)
        /\ (Mpc.contact (Mpc.obs s') <= Mpc.CONTACT_THRESH -> Mpc.state s' = Mpc.seek))
  /\
  (forall (L : Linalg) (W : Type) (Sim : Simulator W)
          (T : Mpc.task) (t0 : Q) (s : Mpc.vars) (w : W),
      Mpc.state s = Mpc.seek_lift ->
      Mpc.TOL_FINE <= Mpc.err_of T (Mpc.obs s) ->
      fst (time_time w) - t0 <= Mpc.TIMEOUT_SEC ->
      exists s' w' act,
        Mpc.tick T t0 s w = Mpc.Continue s' w' act
        /\ Mpc.state s' =
           if Qltb (norm (list3 (sub3 (Mpc.back_pose T (xy (object_state (Mpc.obs s)))
                                         Mpc.LIFT_H)
                                      (robot0_eef_pos (Mpc.obs s))))) 0.004
           then Mpc.seek else Mpc.seek_lift).
Proof.
  split; intros L W Sim T t0 s w Hst He Ht.
  - rewrite (mpc_tick_past_guards T t0 s w He Ht), Hst.
    set (b := Mpc.bookkeeping _ _ s).
    destruct (mpc_bookkeeping_fields (fst (time_time w) - t0)
                (Mpc.err_of T (Mpc.obs s)) s) as (Ho & Hs & _).
    fold b in Ho, Hs.
    unfold Mpc.seek_branch. destruct (env_step _ (snd (time_time w))) as [o w1].
    destruct (Qltb Mpc.CONTACT_THRESH (Mpc.contact o)) eqn:Ec;
      do 3 eexists; (split; [reflexivity|]); cbn; split; intro Hc.
    + reflexivity.
    + apply Qltb_lt in Ec. exfalso. exact (Qlt_not_le _ _ Ec Hc).
    + apply Qltb_lt in Hc. congruence.
    + congruence.
  - rewrite (mpc_tick_past_guards T t0 s w He Ht), Hst.
    set (b := Mpc.bookkeeping _ _ s).
    destruct (mpc_bookkeeping_fields (fst (time_time w) - t0)
                (Mpc.err_of T (Mpc.obs s)) s) as (Ho & Hs & _).
    fold b in Ho, Hs.
    unfold Mpc.seek_lift_branch. rewrite Ho.
    destruct (env_step _ (snd (time_time w))) as [o w1].
    destruct (Qltb _ 0.004); do 3 eexists; (split; [reflexivity|]); cbn.
    + reflexivity.
    + congruence.
Qed.

Lemma contact_moves_seek_to_mpc_witness :
  (exists s' w' act,
      Mpc.tick mpc_task 0 (mpc_vars obs_far Mpc.seek) (world 0 [1] [obs_touch] None)
      = Mpc.Continue s' w' act
      /\ Mpc.CONTACT_THRESH < Mpc.contact (Mpc.obs s')
      /\ Mpc.state s' = Mpc.mpc)
  /\
  (exists s' w' act,
      Mpc.tick mpc_task 0 (mpc_vars obs_touch Mpc.seek_lift)
        (world 0 [1] [obs_touch] None)
      = Mpc.Continue s' w' act
      /\ Mpc.state s' = Mpc.seek_lift).
Proof.
  split.
  - destruct (proj1 contact_moves_seek_to_mpc norm_up_linalg script script_sim
                mpc_task 0 (mpc_vars obs_far Mpc.seek)
                (world 0 [1] [obs_touch] None))
      as (s' & w' & act & E & Hup & _).
    + reflexivity.
    + vm_compute. discriminate.
    + vm_compute. discriminate.
    + exists s', w', act. split; [exact E|].
      assert (Hc : Mpc.CONTACT_THRESH < Mpc.contact (Mpc.obs s')).
      { vm_compute in E. injection E as <- _ _. vm_compute. reflexivity. }
      split; [exact Hc | exact (Hup Hc)].
  - destruct (proj2 contact_moves_seek_to_mpc norm_up_linalg script script_sim
                mpc_task 0 (mpc_vars obs_touch Mpc.seek_lift)
                (world 0 [1] [obs_touch] None))
      as (s' & w' & act & E & Hs).
    + reflexivity.
    + vm_compute. discriminate.
    + vm_compute. discriminate.
    + exists s', w', act. split; [exact E|]. rewrite Hs. vm_compute. reflexivity.
Defined.

(** C7 as stated fails in the seek_lift phase: with a touch force of 0.5
    before and after the simulation step, and the end-effector away from the
    lift pose, the pass stays in seek_lift. *)
Lemma seek_lift_ignores_contact :
  ~ (Mpc.CONTACT_THRESH < Mpc.contact obs_touch ->
     forall s' w' act,
       Mpc.tick mpc_task 0 (mpc_vars obs_touch Mpc.seek_lift)
         (world 0 [1] [obs_touch] None)
       = Mpc.Continue s' w' act ->
       Mpc.state s' <> Mpc.seek /\ Mpc.state s' <> Mpc.seek_lift).
Proof.
  intro H.
  assert (Hc : Mpc.CONTACT_THRESH < Mpc.contact obs_touch) by (vm_compute; reflexivity).
  destruct (Mpc.tick mpc_task 0 (mpc_vars obs_touch Mpc.seek_lift)
              (world 0 [1] [obs_touch] None)) as [site s' w' a|s' w' a|] eqn:E;
    try (vm_compute in E; discriminate E).
  destruct (H Hc s' w' a eq_refl) as [_ Hne].
  apply Hne. vm_compute in E. injection E as <- _ _. reflexivity.
Qed.

(** C8, as the code has it.  A pass in the approach phase that gets past the
    guards ends in the lower phase exactly when the end-effector it observed
    is strictly within the tolerance of the standoff pose, and stays in
    approach otherwise; the tolerance is 0.004 m in the MPC script and
    0.005 m in the PID script. *)
Theorem approach_hands_over_at_standoff :
  (forall (L : Linalg) (W : Type) (Sim : Simulator W)
          (T : Mpc.task) (t0 : Q) (s : Mpc.vars) (w : W),
      Mpc.state s = Mpc.approach ->
      Mpc.TOL_FINE <= Mpc.err_of T (Mpc.obs s) ->
      fst (time_time w) - t0 <= Mpc.TIMEOUT_SEC ->
      let dist :=
        norm (list3 (sub3 (Mpc.back_pose T (xy (object_state (Mpc.obs s)))
                             Mpc.APPROACH_H)
                          (robot0_eef_pos (Mpc.obs s)))) in
      exists s' w' act,
        Mpc.tick T t0 s w = Mpc.Continue s' w' act
        /\ (dist < 0.004 -> Mpc.state s' = Mpc.lower)
        /\ (0.004 <= dist -> Mpc.state s' = Mpc.approach))
  /\
  (forall (L : Linalg) (W : Type) (Sim : Simulator W)
          (T : Pid.task) (t0 : Q) (s : Pid.vars) (w : W),
      Pid.phase s = Pid.approach ->
      Pid.TOL_FINE <= Pid.err_of T (Pid.obs s) ->
      fst (time_time w) - t0 <= Pid.MAX_TIME ->
      let dist :=
        norm (list3 (sub3 (robot0_eef_pos (Pid.obs s))
                          (Pid.approach_target T (Pid.obs s)))) in
      exists s' w' act,
        Pid.tick T t0 s w = Pid.Continue s' w' act
        /\ (dist < 0.005 -> Pid.phase s' = Pid.lower)
        /\ (0.005 <= dist -> Pid.phase s' = Pid.approach)).
Proof.
  split; intros L W Sim T t0 s w Hst He Ht dist.
  - rewrite (mpc_tick_past_guards T t0 s w He Ht), Hst.
    set (b := Mpc.bookkeeping _ _ s).
    destruct (mpc_bookkeeping_fields (fst (time_time w) - t0)
                (Mpc.err_of T (Mpc.obs s)) s) as (Ho & Hs & _).
    fold b in Ho, Hs.
    unfold Mpc.approach_branch. rewrite Ho. fold dist.
    destruct (env_step _ (snd (time_time w))) as [o w1].
    destruct (Qltb dist 0.004) eqn:Ed;
      do 3 eexists; (split; [reflexivity|]); cbn; split; intro Hd.
    + reflexivity.
    + apply Qltb_lt in Ed. exfalso. exact (Qlt_not_le _ _ Ed Hd).
    + apply Qltb_lt in Hd. congruence.
    + congruence.
  - rewrite (pid_tick_past_guards T t0 s w He Ht), Hst.
    set (b := Pid.bookkeeping _ _ s).
    destruct (pid_bookkeeping_fields T (fst (time_time w) - t0) s)
      as (Ho & Hp & _).
    fold b in Ho, Hp.
    unfold Pid.approach_branch, Pid.fallback, Pid.send. rewrite Ho.
    change (norm (list3 (sub3 (robot0_eef_pos (Pid.obs s)) _))) with dist.
    destruct (Qltb dist 0.005) eqn:Ed.
    + destruct (env_step _ (snd (time_time w))) as [o w1].
      do 3 eexists. split; [reflexivity|]. cbn. split; intro Hd.
      * reflexivity.
      * apply Qltb_lt in Ed. exfalso. exact (Qlt_not_le _ _ Ed Hd).
    + destruct (env_step _ (snd (time_time w))) as [o w1].
      do 3 eexists. split; [reflexivity|]. cbn. split; intro Hd.
      * apply Qltb_lt in Hd. congruence.
      * congruence.
Qed.

Lemma approach_hands_over_at_standoff_witness :
  (exists s' w' act,
      Mpc.tick mpc_task 0 (mpc_vars (obs_standoff 0.0035) Mpc.approach)
        (world 0 [1] [] None)
      = Mpc.Continue s' w' act
      /\ Mpc.state s' = Mpc.lower)
  /\
  (exists s' w' act,
      Pid.tick pid_task 0 (pid_vars (obs_standoff 0.0045) Pid.approach [])
        (world 0 [1] [] None)
      = Pid.Continue s' w' act
      /\ Pid.phase s' = Pid.lower).
Proof.
  split.
  - destruct (proj1 approach_hands_over_at_standoff norm_up_linalg script script_sim
                mpc_task 0 (mpc_vars (obs_standoff 0.0035) Mpc.approach)
                (world 0 [1] [] None))
      as (s' & w' & act & E & Hin & _).
    + reflexivity.
    + vm_compute. discriminate.
    + vm_compute. discriminate.
    + exists s', w', act. split; [exact E|]. apply Hin. vm_compute. reflexivity.
  - destruct (proj2 approach_hands_over_at_standoff norm_up_linalg script script_sim
                pid_task 0 (pid_vars (obs_standoff 0.0045) Pid.approach [])
                (world 0 [1] [] None))
      as (s' & w' & act & E & Hin & _).
    + reflexivity.
    + vm_compute. discriminate.
    + vm_compute. discriminate.
    + exists s', w', act. split; [exact E|]. apply Hin. vm_compute. reflexivity.
Defined.

(** C8 as stated fails in the PID script: 4.5 mm above the standoff pose the
    end-effector is not within 4 mm of it, and the pass hands over to lower
    all the same. *)
Lemma pid_lowers_beyond_4mm :
  ~ (forall s' w' act,
       Pid.tick pid_task 0 (pid_vars (obs_standoff 0.0045) Pid.approach [])
         (world 0 [1] [] None)
       = Pid.Continue s' w' act ->
       Pid.phase s' = Pid.lower ->
       norm (list3 (sub3 (robot0_eef_pos (obs_standoff 0.0045))
                         (Pid.approach_target pid_task (obs_standoff 0.0045))))
       < 0.004).
Proof.
  intro H.
  destruct (Pid.tick pid_task 0 (pid_vars (obs_standoff 0.0045) Pid.approach [])
              (world 0 [1] [] None)) as [s' w'|s' w' a] eqn:E;
    try (vm_compute in E; discriminate E).
  assert (Hp : Pid.phase s' = Pid.lower).
  { vm_compute in E. injection E as <- _ _. reflexivity. }
  specialize (H s' w' a eq_refl Hp). vm_compute in H. discriminate H.
Qed.

(** C9.  In the MPC script a pass never leaves the loop through the success
    check inside the mpc branch: every [break] is the success check at the
    top of the loop (taken exactly on an error below [TOL_FINE], before any
    action is sent, leaving status "success") or the timeout guard (taken
    only on an error of at least [TOL_FINE], leaving status "timeout"). *)
Theorem mpc_inner_success_check_unreachable :
  forall (L : Linalg) (W : Type) (Sim : Simulator W)
         (T : Mpc.task) (t0 : Q) (s : Mpc.vars) (w : W)
         (site : Mpc.exit_site) (s' : Mpc.vars) (w' : W) (act : option action),
    Mpc.tick T t0 s w = Mpc.Break site s' w' act ->
    site <> Mpc.mpc_success
    /\ (site = Mpc.top_success ->
        Mpc.err_of T (Mpc.obs s) < Mpc.TOL_FINE
        /\ Mpc.status s' = success /\ act = None)
    /\ (site = Mpc.timeout_guard ->
        Mpc.TOL_FINE <= Mpc.err_of T (Mpc.obs s) /\ Mpc.status s' = timeout).
Proof.
  intros L W Sim T t0 s w site s' w' act. unfold Mpc.tick.
  destruct (Qltb (Mpc.err_of T (Mpc.obs s)) Mpc.TOL_FINE) eqn:He.
  { intros [= <- <- _ <-]. apply Qltb_lt in He.
    split; [discriminate|]. split; [tauto | discriminate]. }
  destruct (time_time w) as [now w1].
  destruct (Qltb Mpc.TIMEOUT_SEC (now - t0)).
  { intros [= <- <- _ _]. apply Qltb_ge in He.
    split; [discriminate|]. split; [discriminate | tauto]. }
  set (b := Mpc.bookkeeping _ _ s).
  destruct (mpc_bookkeeping_fields (now - t0) (Mpc.err_of T (Mpc.obs s)) s)
    as (Ho & _ & _).
  fold b in Ho.
  destruct (Mpc.state b).
  - unfold Mpc.approach_branch. destruct (env_step _ w1). discriminate.
  - unfold Mpc.lower_branch. destruct (env_step _ w1). discriminate.
  - unfold Mpc.seek_branch. destruct (env_step _ w1). discriminate.
  - unfold Mpc.seek_lift_branch. destruct (env_step _ w1). discriminate.
  - unfold Mpc.mpc_branch.
    destruct (osqp_solve _ _ _ w1) as [[v|] w2]; [|discriminate].
    destruct (env_step _ w2). rewrite Ho, He. discriminate.
Qed.

Lemma mpc_inner_success_check_unreachable_witness :
  Mpc.top_success <> Mpc.mpc_success
  /\ Mpc.err_of mpc_task obs_near < Mpc.TOL_FINE.
Proof.
  destruct (mpc_inner_success_check_unreachable norm_up_linalg script script_sim
              mpc_task 0 (mpc_vars obs_near Mpc.mpc) (world 0 [1] [] None)
              Mpc.top_success
              (Mpc.set_status success (mpc_vars obs_near Mpc.mpc))
              (world 0 [1] [] None) None)
    as (Hne & Htop & _).
  - vm_compute. reflexivity.
  - split; [exact Hne | exact (proj1 (Htop eq_refl))].
Defined.

(** The check inside the mpc branch is there: run on its own with an error
    below [TOL_FINE], the branch breaks on it, after sending its action. *)
Lemma mpc_branch_alone_breaks :
  exists s' w' act,
    Mpc.mpc_branch mpc_task (mpc_vars obs_near Mpc.mpc)
      (world 0 [1] [] (Some (V2 0.4 (-0.4))))
    = Mpc.Break Mpc.mpc_success s' w' (Some act).
Proof.
  do 3 eexists. vm_compute. reflexivity.
Qed.

(** ** The finish-time field of the record *)

Lemma has_dot_app (a b : string) :
  has_dot (a ++ b) = has_dot a || has_dot b.
Proof.
  induction a as [|c a IH]; cbn; [reflexivity|].
  rewrite IH. apply orb_assoc.
Qed.

Lemma format_fixed_has_dot (d : nat) (q : Q) : has_dot (format_fixed d q) = true.
Proof.
  unfold format_fixed. rewrite !has_dot_app. cbn [has_dot].
  rewrite Ascii.eqb_refl. cbn. rewrite !orb_true_r. reflexivity.
Qed.

Lemma format_fixed_not_nan (d : nat) (q : Q) : format_fixed d q <> "NaN"%string.
Proof.
  intro E. pose proof (format_fixed_has_dot d q) as H.
  rewrite E in H. discriminate H.
Qed.

Lemma truthy_false_iff (t : option Q) :
  truthy t = false <-> t = None \/ exists e, t = Some e /\ e == 0.
Proof.
  destruct t as [e|]; cbn.
  - rewrite negb_false_iff, Qeq_bool_iff. split.
    + intro H. right. exists e. split; [reflexivity | exact H].
    + intros [H|(e' & [= <-] & H)]; [discriminate | exact H].
  - split; [intros _; left; reflexivity | reflexivity].
Qed.

(** C10.  The finish-time field reads "NaN" exactly when the recorded finish
    time is falsy: never recorded ([None]), or recorded as exactly 0.0, in
    which case the record says "NaN" where formatting the time would give
    "0.00".  It is the fourth field of the PID record and the fifth of the
    MPC record. *)
Theorem finish_field_nan_iff_falsy :
  (forall t : option Q,
      finish_field t = "NaN"%string
      <-> (t = None \/ exists e, t = Some e /\ e == 0))
  /\ (forall impl trial total s,
         nth 3 (Pid.csv_fields impl trial total s) EmptyString
         = finish_field (Pid.t_finish s))
  /\ (forall impl trial total s,
         nth 4 (Mpc.csv_fields impl trial total s) EmptyString
         = finish_field (Mpc.t_finish s))
  /\ finish_field (Some 0) = "NaN"%string
  /\ format_fixed 2 0 = "0.00"%string.
Proof.
  split; [|repeat split].
  intro t. rewrite <- truthy_false_iff.
  destruct t as [e|]; cbn [finish_field].
  - destruct (truthy (Some e)).
    + split; [intro H; exfalso; exact (format_fixed_not_nan 2 e H) | discriminate].
    + split; reflexivity.
  - split; reflexivity.
Qed.

(** * Further properties of the two scripts *)

(** ** The shape of the actions *)

Lemma set_at_length (i : nat) (v : Q) (a : action) :
  List.length (set_at i v a) = List.length a.
Proof.
  revert i. induction a as [|h t IH]; intros [|i]; cbn; auto.
Qed.

Lemma nth_set_at_same (i : nat) (v d : Q) (a : action) :
  (i < List.length a)%nat -> nth i (set_at i v a) d = v.
Proof.
  revert i. induction a as [|h t IH]; intros [|i] H; cbn in *; try lia.
  - reflexivity.
  - apply IH. lia.
Qed.

Lemma nth_set_at_other (i j : nat) (v d : Q) (a : action) :
  i <> j -> nth j (set_at i v a) d = nth j a d.
Proof.
  revert i j. induction a as [|h t IH]; intros [|i] [|j] H; cbn; try reflexivity.
  - congruence.
  - apply IH. congruence.
Qed.

Lemma nth_np_zeros (n i : nat) : nth i (np_zeros n) 0 = 0.
Proof.
  unfold np_zeros. revert i. induction n as [|n IH]; intros [|i]; cbn; auto.
Qed.

(** Three writes below index 3 and the write of the gripper leave the
    shape. *)
Lemma action_shape_writes (n i j k : nat) (vi vj vk : Q) :
  (7 <= n)%nat -> (i < 3)%nat -> (j < 3)%nat -> (k < 3)%nat ->
  action_shape n (set_at 6 1 (set_at i vi (set_at j vj (set_at k vk (np_zeros n))))).
Proof.
  intros Hn Hi Hj Hk. unfold action_shape.
  assert (Hlen : List.length (np_zeros n) = n) by apply repeat_length.
  repeat split.
  - rewrite !set_at_length. exact Hlen.
  - apply nth_set_at_same. rewrite !set_at_length. lia.
  - intros m Hm Hm6.
    rewrite !nth_set_at_other by lia. apply nth_np_zeros.
Qed.

Section Shape.
Context {L : Linalg} {W : Type} {Sim : Simulator W}.

Lemma pid_make_act_shape (d : vec3) : action_shape action_dim (Pid.make_act d).
Proof.
  unfold Pid.make_act, set_dpos.
  apply action_shape_writes; [apply action_dim_ok | lia | lia | lia].
Qed.

Lemma mpc_make_act_shape (d : vec3) : action_shape action_dim (Mpc.make_act d).
Proof.
  unfold Mpc.make_act, set_dpos.
  apply action_shape_writes; [apply action_dim_ok | lia | lia | lia].
Qed.

Lemma pid_tick_shape (T : Pid.task) (t0 : Q) (s : Pid.vars) (w : W) (act : action) :
  Pid.issued (Pid.tick T t0 s w) = Some act -> action_shape action_dim act.
Proof.
  unfold Pid.tick. destruct (time_time w) as [now w1].
  destruct (Qltb Pid.MAX_TIME _); [discriminate|].
  destruct (Qltb (Pid.err_of T (Pid.obs s)) Pid.TOL_FINE); [discriminate|].
  destruct (Pid.phase _).
  - unfold Pid.approach_branch, Pid.fallback. rewrite pid_send_issued.
    some_subst. apply pid_make_act_shape.
  - unfold Pid.lower_branch, Pid.fallback. rewrite pid_send_issued.
    some_subst. apply pid_make_act_shape.
  - unfold Pid.push_branch.
    destruct (Qltb Pid.REAPP_THRESH _); [discriminate|].
    destruct (_ && _)%bool; [discriminate|].
    rewrite pid_send_issued. some_subst. apply pid_make_act_shape.
Qed.

Lemma mpc_tick_shape (T : Mpc.task) (t0 : Q) (s : Mpc.vars) (w : W) (act : action) :
  Mpc.issued (Mpc.tick T t0 s w) = Some act -> action_shape action_dim act.
Proof.
  unfold Mpc.tick.
  destruct (Qltb _ Mpc.TOL_FINE); [discriminate|].
  destruct (time_time w) as [now w1].
  destruct (Qltb Mpc.TIMEOUT_SEC _); [discriminate|].
  destruct (Mpc.state _).
  - unfold Mpc.approach_branch. destruct (env_step _ w1) as [o w2].
    rewrite mpc_end_issued. some_subst. apply mpc_make_act_shape.
  - unfold Mpc.lower_branch. destruct (env_step _ w1) as [o w2].
    rewrite mpc_end_issued. some_subst. apply mpc_make_act_shape.
  - unfold Mpc.seek_branch. destruct (env_step _ w1) as [o w2].
    rewrite mpc_end_issued. some_subst.
    apply action_shape_writes; [apply action_dim_ok | lia | lia | lia].
  - unfold Mpc.seek_lift_branch. destruct (env_step _ w1) as [o w2].
    rewrite mpc_end_issued. some_subst. apply mpc_make_act_shape.
  - unfold Mpc.mpc_branch.
    destruct (osqp_solve _ _ _ w1) as [[v_cmd|] w0]; [|discriminate].
    destruct (env_step _ w0) as [o w2].
    destruct (Qltb _ Mpc.TOL_FINE).
    + cbn [Mpc.issued]. some_subst.
      apply action_shape_writes; [apply action_dim_ok | lia | lia | lia].
    + rewrite mpc_end_issued. some_subst.
      apply action_shape_writes; [apply action_dim_ok | lia | lia | lia].
Qed.

End Shape.

(** X1.  Every action either script sends has [env.action_dim] components,
    with the gripper component [act[6]] at 1 and every component from index 3
    on, the gripper apart, at 0: the scripts never command a rotation. *)
Theorem issued_action_shape :
  (forall (L : Linalg) (W : Type) (Sim : Simulator W)
          (T : Pid.task) (t0 : Q) (s : Pid.vars) (w : W) (act : action),
      Pid.issued (Pid.tick T t0 s w) = Some act -> action_shape action_dim act)
  /\
  (forall (L : Linalg) (W : Type) (Sim : Simulator W)
          (T : Mpc.task) (t0 : Q) (s : Mpc.vars) (w : W) (act : action),
      Mpc.issued (Mpc.tick T t0 s w) = Some act -> action_shape action_dim act).
Proof.
  split; intros L W Sim T t0 s w act H.
  - exact (pid_tick_shape T t0 s w act H).
  - exact (mpc_tick_shape T t0 s w act H).
Qed.

Lemma issued_action_shape_witness :
  (exists act,
      Pid.issued (Pid.tick pid_task 0 (pid_vars obs_far Pid.approach [])
                    (world 0 [0.5] [] None)) = Some act
      /\ action_shape 7 act)
  /\
  (exists act,
      Mpc.issued (Mpc.tick mpc_task 0 (mpc_vars obs_far Mpc.seek)
                    (world 0 [0.5] [] None)) = Some act
      /\ action_shape 7 act).
Proof.
  split; eexists; split.
  - vm_compute. reflexivity.
  - apply (proj1 issued_action_shape norm_up_linalg script script_sim
             pid_task 0 (pid_vars obs_far Pid.approach [])
             (world 0 [0.5] [] None)).
    vm_compute. reflexivity.
  - vm_compute. reflexivity.
  - apply (proj2 issued_action_shape norm_up_linalg script script_sim
             mpc_task 0 (mpc_vars obs_far Mpc.seek)
             (world 0 [0.5] [] None)).
    vm_compute. reflexivity.
Defined.

(** ** The lower phase *)

Lemma np_clip_zero (x lo hi : Q) :
  x == 0 -> lo <= 0 -> 0 <= hi -> np_clip x lo hi == 0.
Proof.
  intros Hx Hlo Hhi. unfold np_clip.
  assert (Hmax : Qmax x lo == x) by (apply Q.max_l; rewrite Hx; exact Hlo).
  assert (Hmin : Qmin (Qmax x lo) hi == Qmax x lo).
  { apply Q.min_l. rewrite Hmax, Hx. exact Hhi. }
  rewrite Hmin, Hmax. exact Hx.
Qed.

Lemma nth_set_dpos (d : vec3) (a : action) :
  (7 <= List.length a)%nat ->
  nth 0 (set_at 6 1 (set_dpos d a)) 0 = x3 d
  /\ nth 1 (set_at 6 1 (set_dpos d a)) 0 = y3 d
  /\ nth 2 (set_at 6 1 (set_dpos d a)) 0 = z3 d.
Proof.
  intro H.
  destruct a as [|a0 [|a1 [|a2 [|a3 [|a4 [|a5 [|a6 a]]]]]]]; simpl in H; try lia.
  repeat split.
Qed.

(** X2.  A pass in the lower phase that gets past the guards sends an action
    with no lateral motion (x and y deltas are 0) and a z delta that is the
    clipped distance to the working height; it hands over (to push in the PID
    script, emptying the stall buffer; to seek in the MPC script) exactly when
    the end-effector it observed is strictly within the height tolerance
    (0.0008 of [WRIST_Z + 0.001] in PID, 0.002 of [WRIST_Z] in MPC). *)
Theorem lower_holds_lateral_position :
  (forall (L : Linalg) (W : Type) (Sim : Simulator W)
          (T : Pid.task) (t0 : Q) (s : Pid.vars) (w : W),
      Pid.phase s = Pid.lower ->
      Pid.TOL_FINE <= Pid.err_of T (Pid.obs s) ->
      fst (time_time w) - t0 <= Pid.MAX_TIME ->
      let ez := z3 (robot0_eef_pos (Pid.obs s)) in
      let tz := Pid.WRIST_Z T + 0.001 in
      exists s' w' act,
        Pid.tick T t0 s w = Pid.Continue s' w' (Some act)
        /\ nth 0 act 0 == 0 /\ nth 1 act 0 == 0
        /\ nth 2 act 0 = np_clip (tz - ez) (- Pid.SPEED_XY) Pid.SPEED_XY
        /\ (Qabs (ez - tz) < 0.0008 ->
            Pid.phase s' = Pid.push /\ Pid.stall_buf s' = [])
        /\ (0.0008 <= Qabs (ez - tz) -> Pid.phase s' = Pid.lower))
  /\
  (forall (L : Linalg) (W : Type) (Sim : Simulator W)
          (T : Mpc.task) (t0 : Q) (s : Mpc.vars) (w : W),
      Mpc.state s = Mpc.lower ->
      Mpc.TOL_FINE <= Mpc.err_of T (Mpc.obs s) ->
      fst (time_time w) - t0 <= Mpc.TIMEOUT_SEC ->
      let ez := z3 (robot0_eef_pos (Mpc.obs s)) in
      exists s' w' act,
        Mpc.tick T t0 s w = Mpc.Continue s' w' act
        /\ nth 0 act 0 == 0 /\ nth 1 act 0 == 0
        /\ nth 2 act 0 = np_clip (Mpc.WRIST_Z T - ez) (- Mpc.SPEED_XY) Mpc.SPEED_Z
        /\ (Qabs (ez - Mpc.WRIST_Z T) < 0.002 -> Mpc.state s' = Mpc.seek)
        /\ (0.002 <= Qabs (ez - Mpc.WRIST_Z T) -> Mpc.state s' = Mpc.lower)).
Proof.
  split; intros L W Sim T t0 s w Hst He Ht.
  - intros ez tz.
    rewrite (pid_tick_past_guards T t0 s w He Ht), Hst.
    set (b := Pid.bookkeeping _ _ s).
    destruct (pid_bookkeeping_fields T (fst (time_time w) - t0) s)
      as (Ho & Hp & _).
    fold b in Ho, Hp.
    unfold Pid.lower_branch, Pid.fallback, Pid.send. rewrite Ho.
    fold ez. fold tz.
    assert (Hact : forall x : Pid.vars, Pid.obs x = Pid.obs s ->
      let act := Pid.make_act
                   (clip3 (sub3 (r_ (xy (robot0_eef_pos (Pid.obs s))) tz)
                                (robot0_eef_pos (Pid.obs x)))
                          (- Pid.SPEED_XY) Pid.SPEED_XY) in
      nth 0 act 0 == 0 /\ nth 1 act 0 == 0
      /\ nth 2 act 0 = np_clip (tz - ez) (- Pid.SPEED_XY) Pid.SPEED_XY).
    { intros x Hx act. subst act. rewrite Hx. unfold Pid.make_act.
      destruct (nth_set_dpos
                  (clip3 (sub3 (r_ (xy (robot0_eef_pos (Pid.obs s))) tz)
                               (robot0_eef_pos (Pid.obs s)))
                         (- Pid.SPEED_XY) Pid.SPEED_XY)
                  (np_zeros action_dim) np_zeros_length) as (-> & -> & ->).
      cbn [clip3 sub3 r_ xy x3 y3 z3 x2 y2].
      repeat split; apply np_clip_zero; try discriminate; ring. }
    destruct (Qltb (Qabs (ez - tz)) 0.0008) eqn:Ez.
    + pose proof (Hact (Pid.clear_stall_buf (Pid.set_phase Pid.push b)) Ho)
        as (H0 & H1 & H2).
      cbv zeta in H0, H1, H2.
      destruct (env_step _ (snd (time_time w))) as [o w1].
      do 3 eexists. split; [reflexivity|].
      split; [exact H0|]. split; [exact H1|]. split; [exact H2|].
      split; intro Hd.
      * split; reflexivity.
      * apply Qltb_lt in Ez. exfalso. exact (Qlt_not_le _ _ Ez Hd).
    + pose proof (Hact b Ho) as (H0 & H1 & H2).
      cbv zeta in H0, H1, H2.
      destruct (env_step _ (snd (time_time w))) as [o w1].
      do 3 eexists. split; [reflexivity|].
      split; [exact H0|]. split; [exact H1|]. split; [exact H2|].
      split; intro Hd.
      * apply Qltb_lt in Hd. congruence.
      * cbn. congruence.
  - intro ez.
    rewrite (mpc_tick_past_guards T t0 s w He Ht), Hst.
    set (b := Mpc.bookkeeping _ _ s).
    destruct (mpc_bookkeeping_fields (fst (time_time w) - t0)
                (Mpc.err_of T (Mpc.obs s)) s) as (Ho & Hs & _).
    fold b in Ho, Hs.
    unfold Mpc.lower_branch. rewrite Ho. fold ez.
    destruct (nth_set_dpos
                (clip3 (sub3 (r_ (xy (robot0_eef_pos (Mpc.obs s))) (Mpc.WRIST_Z T))
                             (robot0_eef_pos (Mpc.obs s)))
                       (- Mpc.SPEED_XY) Mpc.SPEED_Z)
                (np_zeros action_dim) np_zeros_length) as (H0 & H1 & H2).
    fold (Mpc.make_act (clip3 (sub3 (r_ (xy (robot0_eef_pos (Mpc.obs s))) (Mpc.WRIST_Z T))
                             (robot0_eef_pos (Mpc.obs s)))
                       (- Mpc.SPEED_XY) Mpc.SPEED_Z)) in H0, H1, H2.
    destruct (env_step _ (snd (time_time w))) as [o w1].
    cbn [r_ z3].
    destruct (Qltb (Qabs (ez - Mpc.WRIST_Z T)) 0.002) eqn:Ez;
      do 3 eexists; (split; [reflexivity|]);
      (split; [rewrite H0; cbn [clip3 sub3 r_ xy x3 y3 z3 x2 y2];
               apply np_clip_zero; try discriminate; ring|]);
      (split; [rewrite H1; cbn [clip3 sub3 r_ xy x3 y3 z3 x2 y2];
               apply np_clip_zero; try discriminate; ring|]);
      (split; [rewrite H2; reflexivity|]);
      split; intro Hd.
    + reflexivity.
    + apply Qltb_lt in Ez. exfalso. exact (Qlt_not_le _ _ Ez Hd).
    + apply Qltb_lt in Hd. congruence.
    + exact (eq_trans Hs Hst).
Qed.

Lemma lower_holds_lateral_position_witness :
  (exists s' w' act,
      Pid.tick pid_task 0 (pid_vars obs_low Pid.lower stalled_buf)
        (world 0 [10] [] None)
      = Pid.Continue s' w' (Some act)
      /\ nth 0 act 0 == 0 /\ nth 1 act 0 == 0
      /\ Pid.phase s' = Pid.push /\ Pid.stall_buf s' = [])
  /\
  (exists s' w' act,
      Mpc.tick mpc_task 0 (mpc_vars obs_low_mpc Mpc.lower) (world 0 [10] [] None)
      = Mpc.Continue s' w' act
      /\ nth 0 act 0 == 0 /\ nth 1 act 0 == 0
      /\ Mpc.state s' = Mpc.seek).
Proof.
  split.
  - destruct (proj1 lower_holds_lateral_position norm_up_linalg script script_sim
                pid_task 0 (pid_vars obs_low Pid.lower stalled_buf)
                (world 0 [10] [] None))
      as (s' & w' & act & E & H0 & H1 & _ & Hin & _).
    + reflexivity.
    + vm_compute. discriminate.
    + vm_compute. discriminate.
    + exists s', w', act. repeat split; try assumption; apply Hin;
        vm_compute; reflexivity.
  - destruct (proj2 lower_holds_lateral_position norm_up_linalg script script_sim
                mpc_task 0 (mpc_vars obs_low_mpc Mpc.lower)
                (world 0 [10] [] None))
      as (s' & w' & act & E & H0 & H1 & _ & Hin & _).
    + reflexivity.
    + vm_compute. discriminate.
    + vm_compute. discriminate.
    + exists s', w', act. repeat split; try assumption; apply Hin;
        vm_compute; reflexivity.
Defined.

(** ** The push phase of the PID script *)

(** X3.  A pass in the push phase that gets past the guards goes back to
    approach without sending an action or counting a step when the cube is
    more than [REAPP_THRESH] off the push line or the stall guard fires;
    otherwise it sends an action, counts a step and stays in push. *)
Theorem push_pass_outcomes :
  forall (L : Linalg) (W : Type) (Sim : Simulator W)
         (T : Pid.task) (t0 : Q) (s : Pid.vars) (w : W),
    Pid.phase s = Pid.push ->
    Pid.TOL_FINE <= Pid.err_of T (Pid.obs s) ->
    fst (time_time w) - t0 <= Pid.MAX_TIME ->
    let err := Pid.err_of T (Pid.obs s) in
    let buf := deque_append Pid.stall_maxlen (Pid.stall_buf s) err in
    let off_line := Pid.REAPP_THRESH < pid_lateral T (Pid.obs s) in
    let stalled :=
      List.length buf = Pid.stall_maxlen /\ hd 0 buf - err < Pid.STALL_THRESH in
    (off_line \/ stalled ->
     exists s',
       Pid.tick T t0 s w = Pid.Continue s' (snd (time_time w)) None
       /\ Pid.phase s' = Pid.approach
       /\ Pid.step s' = Pid.step s /\ Pid.obs s' = Pid.obs s)
    /\
    (~ off_line -> ~ stalled ->
     exists s' w' act,
       Pid.tick T t0 s w = Pid.Continue s' w' (Some act)
       /\ Pid.phase s' = Pid.push
       /\ Pid.step s' = S (Pid.step s) /\ Pid.stall_buf s' = buf).
Proof.
  intros L W Sim T t0 s w Hp He Ht err buf off_line stalled.
  rewrite (pid_tick_past_guards T t0 s w He Ht), Hp.
  set (b := Pid.bookkeeping _ _ s).
  destruct (pid_bookkeeping_fields T (fst (time_time w) - t0) s)
    as (Ho & Hph & Hstep & _ & Hb).
  fold b in Ho, Hph, Hstep, Hb. fold err in Hb. fold buf in Hb.
  unfold Pid.push_branch. rewrite Ho, Hb.
  change (norm (list2 (sub2 (xy (object_state (Pid.obs s))) _)))
    with (pid_lateral T (Pid.obs s)).
  fold err.
  destruct (Qltb Pid.REAPP_THRESH (pid_lateral T (Pid.obs s))) eqn:El.
  { split.
    - intros _. eexists. split; [reflexivity|]. cbn. auto.
    - intros Hn _. apply Qltb_lt in El. contradiction. }
  destruct ((List.length buf =? Pid.stall_maxlen)%nat
            && Qltb (hd 0 buf - err) Pid.STALL_THRESH) eqn:Es.
  { split.
    - intros _. eexists. split; [reflexivity|]. cbn. auto.
    - intros _ Hn. apply andb_true_iff in Es. destruct Es as [E1 E2].
      apply Nat.eqb_eq in E1. apply Qltb_lt in E2. exfalso. apply Hn.
      split; assumption. }
  split.
  - intros [Hoff|[Hlen Hst]].
    + apply Qltb_lt in Hoff. unfold off_line in *. congruence.
    + apply Nat.eqb_eq in Hlen. apply Qltb_lt in Hst.
      rewrite Hlen, Hst in Es. discriminate Es.
  - intros _ _. unfold Pid.send.
    destruct (env_step _ (snd (time_time w))) as [o w1].
    do 3 eexists. split; [reflexivity|]. cbn.
    split; [congruence|]. split; [congruence | exact Hb].
Qed.

Lemma push_pass_outcomes_witness :
  (exists s',
      Pid.tick pid_task 0 (pid_vars obs_off_line Pid.push []) (world 0 [10] [] None)
      = Pid.Continue s' (snd (time_time (world 0 [10] [] None))) None
      /\ Pid.phase s' = Pid.approach)
  /\
  (exists s' w' act,
      Pid.tick pid_task 0 (pid_vars obs_push Pid.push []) (world 0 [10] [] None)
      = Pid.Continue s' w' (Some act)
      /\ Pid.phase s' = Pid.push /\ Pid.step s' = 1%nat).
Proof.
  split.
  - destruct (push_pass_outcomes norm_up_linalg script script_sim
                pid_task 0 (pid_vars obs_off_line Pid.push [])
                (world 0 [10] [] None)) as [Hback _].
    + reflexivity.
    + vm_compute. discriminate.
    + vm_compute. discriminate.
    + destruct Hback as (s' & E & Hp & _).
      * left. vm_compute. reflexivity.
      * exists s'. split; assumption.
  - destruct (push_pass_outcomes norm_up_linalg script script_sim
                pid_task 0 (pid_vars obs_push Pid.push [])
                (world 0 [10] [] None)) as [_ Hgo].
    + reflexivity.
    + vm_compute. discriminate.
    + vm_compute. discriminate.
    + destruct Hgo as (s' & w' & act & E & Hp & Hs & _).
      * vm_compute. discriminate.
      * vm_compute. intros [H _]. discriminate H.
      * exists s', w', act. repeat split; assumption.
Defined.

Lemma np_clip_ge_hi (x lo hi : Q) : lo <= hi -> hi <= x -> np_clip x lo hi == hi.
Proof.
  intros Hlh Hx. unfold np_clip. apply Q.min_r.
  apply Qle_trans with x; [exact Hx | apply Q.le_max_l].
Qed.

Lemma np_clip_mono_lo (x lo hi m : Q) : m <= x -> m <= hi -> m <= np_clip x lo hi.
Proof.
  intros Hx Hhi. unfold np_clip. apply Q.min_glb; [|exact Hhi].
  apply Qle_trans with x; [exact Hx | apply Q.le_max_l].
Qed.

Lemma np_clip_compat (x y lo hi : Q) : x == y -> np_clip x lo hi == np_clip y lo hi.
Proof.
  intro H. unfold np_clip. rewrite H. reflexivity.
Qed.

Lemma py_max_cases (a b : Q) :
  (a < b /\ py_max a b = b) \/ (b <= a /\ py_max a b = a).
Proof.
  unfold py_max. destruct (Qltb a b) eqn:E.
  - left. split; [apply Qltb_lt; exact E | reflexivity].
  - right. split; [apply Qltb_ge; exact E | reflexivity].
Qed.

(** The fade of the push speed is at 1 from an error of 1 mm on. *)
Lemma pid_fade_saturated (err : Q) :
  Pid.FADE_DIST <= err ->
  np_clip (Qpower (err / Pid.FADE_DIST) Pid.EXPONENT + Pid.DAMP) 0 1 == 1.
Proof.
  intro He. apply np_clip_ge_hi; [discriminate|].
  assert (Hr : 1 <= err / Pid.FADE_DIST).
  { apply Qle_shift_div_l; [reflexivity|]. rewrite Qmult_1_l. exact He. }
  change (Qpower (err / Pid.FADE_DIST) Pid.EXPONENT)
    with (err / Pid.FADE_DIST * (err / Pid.FADE_DIST)).
  assert (Hd : 0 <= Pid.DAMP) by discriminate.
  nra.
Qed.

Lemma pid_push_fwd_bounds (err : Q) :
  Pid.PUSH_VEL_MAX * Pid.DAMP <= pid_push_fwd err <= Pid.PUSH_VEL_MAX.
Proof.
  unfold pid_push_fwd.
  set (fade := np_clip _ 0 1).
  assert (Hsq : 0 <= Qpower (err / Pid.FADE_DIST) Pid.EXPONENT).
  { change (Qpower (err / Pid.FADE_DIST) Pid.EXPONENT)
      with (err / Pid.FADE_DIST * (err / Pid.FADE_DIST)). nra. }
  assert (Hf : Pid.DAMP <= fade <= 1).
  { split.
    - apply np_clip_mono_lo; [|discriminate]. lra.
    - apply np_clip_bounds. discriminate. }
  assert (Hb : (if Qltb Pid.FADE_DIST err then Pid.PUSH_VEL_MIN else 0)
               <= Pid.PUSH_VEL_MAX).
  { destruct (Qltb Pid.FADE_DIST err); discriminate. }
  destruct (py_max_cases (Pid.PUSH_VEL_MAX * fade)
              (if Qltb Pid.FADE_DIST err then Pid.PUSH_VEL_MIN else 0))
    as [[Hlt ->]|[Hge ->]].
  - split; [|exact Hb]. unfold Pid.PUSH_VEL_MAX, Pid.DAMP in *. nra.
  - unfold Pid.PUSH_VEL_MAX, Pid.DAMP in *. split; nra.
Qed.

Lemma pid_push_fwd_saturated (err : Q) :
  Pid.FADE_DIST <= err -> pid_push_fwd err == Pid.PUSH_VEL_MAX.
Proof.
  intro He. unfold pid_push_fwd.
  pose proof (pid_fade_saturated err He) as Hf.
  set (fade := np_clip _ 0 1) in *.
  assert (Hb : (if Qltb Pid.FADE_DIST err then Pid.PUSH_VEL_MIN else 0)
               <= Pid.PUSH_VEL_MAX * fade).
  { rewrite Hf. destruct (Qltb Pid.FADE_DIST err); discriminate. }
  destruct (py_max_cases (Pid.PUSH_VEL_MAX * fade)
              (if Qltb Pid.FADE_DIST err then Pid.PUSH_VEL_MIN else 0))
    as [[Hlt ->]|[Hge ->]].
  - exfalso. exact (Qlt_not_le _ _ Hlt Hb).
  - rewrite Hf. ring.
Qed.

(** X4.  The forward speed of the push (lines 94-95) lies between
    [PUSH_VEL_MAX*DAMP] and [PUSH_VEL_MAX] for every error and equals
    [PUSH_VEL_MAX] from an error of [FADE_DIST] (1 mm) on; as the success
    check lets no error below [TOL_FINE] (15 mm) through, every push the loop
    sends runs at full speed: its x and y deltas are the clipped sum of the
    unit direction times [PUSH_VEL_MAX] and half the offset from the
    end-effector to the cube, taken with a minus sign. *)
Theorem push_speed_never_fades :
  (forall err : Q,
      Pid.PUSH_VEL_MAX * Pid.DAMP <= pid_push_fwd err <= Pid.PUSH_VEL_MAX)
  /\
  (forall err : Q, Pid.FADE_DIST <= err -> pid_push_fwd err == Pid.PUSH_VEL_MAX)
  /\
  (forall (L : Linalg) (W : Type) (Sim : Simulator W)
          (T : Pid.task) (t0 : Q) (s : Pid.vars) (w : W) (act : action),
      Pid.phase s = Pid.push ->
      Pid.issued (Pid.tick T t0 s w) = Some act ->
      let o := Pid.obs s in
      let dir_u := div2 (Pid.err_vec_of T o) (Pid.err_of T o + (1 # 1000000000)) in
      let off := sub2 (xy (object_state o)) (xy (robot0_eef_pos o)) in
      nth 0 act 0
      == np_clip (x2 dir_u * Pid.PUSH_VEL_MAX - x2 off * 0.5)
           (- Pid.SPEED_XY) Pid.SPEED_XY
      /\ nth 1 act 0
         == np_clip (y2 dir_u * Pid.PUSH_VEL_MAX - y2 off * 0.5)
              (- Pid.SPEED_XY) Pid.SPEED_XY).
Proof.
  split; [exact pid_push_fwd_bounds|]. split; [exact pid_push_fwd_saturated|].
  intros L W Sim T t0 s w act Hp. unfold Pid.tick.
  destruct (time_time w) as [now w1].
  destruct (Qltb Pid.MAX_TIME _); [discriminate|].
  destruct (Qltb (Pid.err_of T (Pid.obs s)) Pid.TOL_FINE) eqn:He; [discriminate|].
  apply Qltb_ge in He.
  set (b := Pid.bookkeeping _ _ s).
  destruct (pid_bookkeeping_fields T (now - t0) s) as (Ho & Hph & _).
  fold b in Ho, Hph. rewrite Hph, Hp.
  unfold Pid.push_branch.
  destruct (Qltb Pid.REAPP_THRESH _); [discriminate|].
  destruct (_ && _)%bool; [discriminate|].
  rewrite pid_send_issued. some_subst. rewrite Ho.
  change (py_max _ _) with (pid_push_fwd (Pid.err_of T (Pid.obs s))).
  assert (Hfwd : pid_push_fwd (Pid.err_of T (Pid.obs s)) == Pid.PUSH_VEL_MAX).
  { apply pid_push_fwd_saturated.
    apply Qle_trans with Pid.TOL_FINE; [discriminate | exact He]. }
  unfold Pid.make_act.
  match goal with
  | |- nth 0 (set_at 6 1 (set_dpos ?d _)) 0 == _ /\ _ =>
      destruct (nth_set_dpos d (np_zeros action_dim) np_zeros_length)
        as (-> & -> & _)
  end.
  cbn [clip3 sub2 scale2 r_ x3 y3 x2 y2].
  split; apply np_clip_compat; rewrite Hfwd; reflexivity.
Qed.

Lemma push_speed_never_fades_witness :
  pid_push_fwd 0.18 == Pid.PUSH_VEL_MAX
  /\ exists act,
       Pid.issued (Pid.tick pid_task 0 (pid_vars obs_push Pid.push [])
                     (world 0 [10] [] None)) = Some act
       /\ nth 0 act 0 == 0.10.
Proof.
  split.
  - apply (proj1 (proj2 push_speed_never_fades)). vm_compute. discriminate.
  - eexists. split; [vm_compute; reflexivity|].
    match goal with
    | |- nth 0 ?a 0 == _ =>
        assert (E : Pid.issued (Pid.tick pid_task 0 (pid_vars obs_push Pid.push [])
                                  (world 0 [10] [] None)) = Some a)
          by (vm_compute; reflexivity);
        destruct (proj2 (proj2 push_speed_never_fades)
                    norm_up_linalg script script_sim
                    pid_task 0 (pid_vars obs_push Pid.push [])
                    (world 0 [10] [] None) a eq_refl E) as [H0 _]
    end.
    eapply Qeq_trans; [exact H0|]. vm_compute. reflexivity.
Defined.

(** ** The phase machines *)

Section Edges.
Context {L : Linalg} {W : Type} {Sim : Simulator W}.

Lemma pid_edge_refl (p : Pid.phase_t) : pid_edge p p.
Proof. destruct p; left; reflexivity. Qed.

Lemma mpc_edge_refl (p : Mpc.state_t) : mpc_edge p p.
Proof. destruct p; left; reflexivity. Qed.

Lemma pid_send_phase (a : action) (x : Pid.vars) (w : W) :
  Pid.phase (Pid.vars_after (Pid.send a x w)) = Pid.phase x.
Proof.
  unfold Pid.send. destruct (env_step a w). reflexivity.
Qed.

Lemma pid_tick_edge (T : Pid.task) (t0 : Q) (s : Pid.vars) (w : W) :
  pid_edge (Pid.phase s) (Pid.phase (Pid.vars_after (Pid.tick T t0 s w))).
Proof.
  unfold Pid.tick. destruct (time_time w) as [now w1].
  destruct (Qltb Pid.MAX_TIME _); [apply pid_edge_refl|].
  set (b := Pid.bookkeeping _ _ s).
  destruct (pid_bookkeeping_fields T (now - t0) s) as (_ & Hph & _).
  fold b in Hph.
  destruct (Qltb (Pid.err_of T (Pid.obs s)) Pid.TOL_FINE).
  { cbn. rewrite Hph. apply pid_edge_refl. }
  rewrite Hph. destruct (Pid.phase s) eqn:Hp.
  - unfold Pid.approach_branch, Pid.fallback. rewrite pid_send_phase.
    destruct (Qltb _ 0.005); cbn; [right; reflexivity | left; congruence].
  - unfold Pid.lower_branch, Pid.fallback. rewrite pid_send_phase.
    destruct (Qltb _ 0.0008); cbn; [right; reflexivity | left; congruence].
  - unfold Pid.push_branch.
    destruct (Qltb Pid.REAPP_THRESH _); [right; reflexivity|].
    destruct (_ && _)%bool; [right; reflexivity|].
    rewrite pid_send_phase. left. congruence.
Qed.

Lemma mpc_tick_edge (T : Mpc.task) (t0 : Q) (s : Mpc.vars) (w : W) :
  mpc_edge (Mpc.state s) (Mpc.state (Mpc.vars_after s (Mpc.tick T t0 s w))).
Proof.
  unfold Mpc.tick.
  destruct (Qltb (Mpc.err_of T (Mpc.obs s)) Mpc.TOL_FINE); [apply mpc_edge_refl|].
  destruct (time_time w) as [now w1].
  destruct (Qltb Mpc.TIMEOUT_SEC _); [apply mpc_edge_refl|].
  set (b := Mpc.bookkeeping _ _ s).
  destruct (mpc_bookkeeping_fields (now - t0) (Mpc.err_of T (Mpc.obs s)) s)
    as (_ & Hs & _).
  fold b in Hs. rewrite Hs. destruct (Mpc.state s) eqn:Hst.
  - unfold Mpc.approach_branch. destruct (env_step _ w1).
    destruct (Qltb _ 0.004); cbn; [right; reflexivity | left; congruence].
  - unfold Mpc.lower_branch. destruct (env_step _ w1).
    destruct (Qltb _ 0.002); cbn; [right; reflexivity | left; congruence].
  - unfold Mpc.seek_branch. destruct (env_step _ w1).
    destruct (Qltb Mpc.CONTACT_THRESH _); cbn; [right; reflexivity | left; congruence].
  - unfold Mpc.seek_lift_branch. destruct (env_step _ w1).
    destruct (Qltb _ 0.004); cbn; [right; reflexivity | left; congruence].
  - unfold Mpc.mpc_branch.
    destruct (osqp_solve _ _ _ w1) as [[v|] w0]; [|left; exact Hst].
    destruct (env_step _ w0).
    destruct (Qltb _ Mpc.TOL_FINE); [left; exact Hs|].
    destruct (Qltb _ Mpc.CONTACT_THRESH); cbn; [right; reflexivity | left; congruence].
Qed.

End Edges.

(** X5.  No pass skips a phase.  In the PID script a pass keeps the phase or
    moves along approach -> lower -> push -> approach; in the MPC script it
    keeps the state or moves along approach -> lower -> seek -> mpc ->
    seek_lift -> seek.  In particular push is only entered from lower, and
    mpc only from seek. *)
Theorem phases_follow_the_machine :
  (forall (L : Linalg) (W : Type) (Sim : Simulator W)
          (T : Pid.task) (t0 : Q) (s : Pid.vars) (w : W),
      pid_edge (Pid.phase s) (Pid.phase (Pid.vars_after (Pid.tick T t0 s w))))
  /\
  (forall (L : Linalg) (W : Type) (Sim : Simulator W)
          (T : Mpc.task) (t0 : Q) (s : Mpc.vars) (w : W),
      mpc_edge (Mpc.state s) (Mpc.state (Mpc.vars_after s (Mpc.tick T t0 s w)))).
Proof.
  split; intros L W Sim T t0 s w.
  - apply pid_tick_edge.
  - apply mpc_tick_edge.
Qed.

(** ** The start of a trial *)

Section Start.
Context {L : Linalg} {W : Type} {Sim : Simulator W}.

Lemma pid_initial_error (o : observation) :
  x2 (Pid.err_vec_of (Pid.make_task o) o) == 0.15
  /\ y2 (Pid.err_vec_of (Pid.make_task o) o) == -0.10
  /\ 0.15 <= Pid.err_of (Pid.make_task o) o.
Proof.
  assert (Hx : x2 (Pid.err_vec_of (Pid.make_task o) o) == 0.15) by (cbn; ring).
  split; [exact Hx|]. split; [cbn; ring|].
  apply Qle_trans with (Qabs (x2 (Pid.err_vec_of (Pid.make_task o) o))).
  - rewrite <- Hx at 1. apply Qle_Qabs.
  - apply norm_ge_abs. left. reflexivity.
Qed.

Lemma mpc_initial_error (o : observation) :
  0.15 <= Mpc.err_of (Mpc.make_task o) o.
Proof.
  set (d := sub2 (Mpc.GOAL_XY (Mpc.make_task o)) (xy (object_state o))).
  assert (Hx : x2 d == 0.15) by (cbn; ring).
  apply Qle_trans with (Qabs (x2 d)).
  - rewrite <- Hx at 1. apply Qle_Qabs.
  - apply norm_ge_abs. left. reflexivity.
Qed.

End Start.

(** X6.  The goal is set 0.15 m and -0.10 m from where the cube starts, so the
    error of the first observation is at least 0.15 m in both scripts,
    wherever the cube is: the first pass is never the successful one.  The
    first PID pass leaves the status at "timeout"; the first MPC pass, when
    within the time budget, sends an action and goes on. *)
Theorem trial_never_starts_at_goal :
  (forall (L : Linalg) (o : observation),
      x2 (Pid.err_vec_of (Pid.make_task o) o) == 0.15
      /\ y2 (Pid.err_vec_of (Pid.make_task o) o) == -0.10
      /\ 0.15 <= Pid.err_of (Pid.make_task o) o
      /\ 0.15 <= Mpc.err_of (Mpc.make_task o) o)
  /\
  (forall (L : Linalg) (W : Type) (Sim : Simulator W)
          (o : observation) (t0 : Q) (w : W),
      Pid.status
        (Pid.vars_after (Pid.tick (Pid.make_task o) t0 (Pid.init_vars o) w))
      = timeout)
  /\
  (forall (L : Linalg) (W : Type) (Sim : Simulator W)
          (o : observation) (t0 : Q) (w : W),
      fst (time_time w) - t0 <= Mpc.TIMEOUT_SEC ->
      exists s' w' act,
        Mpc.tick (Mpc.make_task o) t0 (Mpc.init_vars o) w = Mpc.Continue s' w' act).
Proof.
  split; [|split].
  - intros L o. destruct (pid_initial_error o) as (Hx & Hy & He).
    repeat split; try assumption.
  - intros L W Sim o t0 w.
    destruct (pid_initial_error o) as (_ & _ & He).
    assert (Hfine : Pid.TOL_FINE <= Pid.err_of (Pid.make_task o) (Pid.obs (Pid.init_vars o))).
    { apply Qle_trans with 0.15; [discriminate | exact He]. }
    destruct (Qlt_le_dec Pid.MAX_TIME (fst (time_time w) - t0)) as [Hlt|Hle].
    + rewrite (pid_timeout_first _ t0 _ w Hlt). reflexivity.
    + destruct (Pid.tick (Pid.make_task o) t0 (Pid.init_vars o) w)
        as [s' w'|s' w' a] eqn:E.
      * exfalso. revert E.
        rewrite (pid_tick_past_guards _ t0 _ w Hfine Hle).
        cbn [Pid.phase Pid.init_vars].
        unfold Pid.approach_branch, Pid.fallback, Pid.send.
        destruct (env_step _ (snd (time_time w))). discriminate.
      * cbn. rewrite (pid_status_kept _ _ _ _ _ _ _ E). reflexivity.
  - intros L W Sim o t0 w Ht.
    assert (Hfine : Mpc.TOL_FINE <= Mpc.err_of (Mpc.make_task o) (Mpc.obs (Mpc.init_vars o))).
    { apply Qle_trans with 0.15; [discriminate | apply mpc_initial_error]. }
    rewrite (mpc_tick_past_guards _ t0 _ w Hfine Ht).
    cbn [Mpc.state Mpc.init_vars].
    unfold Mpc.approach_branch. destruct (env_step _ (snd (time_time w))).
    do 3 eexists. reflexivity.
Qed.

Lemma trial_never_starts_at_goal_witness :
  exists s' w' act,
    Mpc.tick (Mpc.make_task obs_far) 0 (Mpc.init_vars obs_far) (world 0 [1] [] None)
    = Mpc.Continue s' w' act.
Proof.
  apply (proj2 (proj2 trial_never_starts_at_goal) norm_up_linalg script script_sim).
  vm_compute. discriminate.
Defined.

(** ** What the final status says about the final observation *)

Section FinalStatus.
Context {L : Linalg} {W : Type} {Sim : Simulator W}.

Lemma pid_break_status (T : Pid.task) (t0 : Q) (s s' : Pid.vars) (w w' : W) :
  Pid.tick T t0 s w = Pid.Break s' w' ->
  (Pid.status s' = success /\ Pid.err_of T (Pid.obs s') < Pid.TOL_FINE)
  \/ s' = s.
Proof.
  unfold Pid.tick. destruct (time_time w) as [now w1].
  destruct (Qltb Pid.MAX_TIME _).
  { intros [= <- _]. right. reflexivity. }
  destruct (Qltb (Pid.err_of T (Pid.obs s)) Pid.TOL_FINE) eqn:He.
  { intros [= <- _]. left. split; [reflexivity|].
    apply Qltb_lt in He.
    destruct (pid_bookkeeping_fields T (now - t0) s) as (Ho & _).
    cbn [Pid.obs Pid.set_status]. rewrite Ho. exact He. }
  set (b := Pid.bookkeeping _ _ s).
  destruct (Pid.phase b).
  - unfold Pid.approach_branch, Pid.fallback, Pid.send.
    destruct (env_step _ w1). discriminate.
  - unfold Pid.lower_branch, Pid.fallback, Pid.send.
    destruct (env_step _ w1). discriminate.
  - unfold Pid.push_branch.
    destruct (Qltb Pid.REAPP_THRESH _); [discriminate|].
    destruct (_ && _)%bool; [discriminate|].
    unfold Pid.send. destruct (env_step _ w1). discriminate.
Qed.

Lemma pid_loop_status (fuel : nat) (T : Pid.task) (t0 : Q)
    (s s' : Pid.vars) (w w' : W) :
  Pid.status s = timeout ->
  Pid.loop fuel T t0 s w = Some (s', w') ->
  (Pid.status s' = success /\ Pid.err_of T (Pid.obs s') < Pid.TOL_FINE)
  \/ Pid.status s' = timeout.
Proof.
  revert s w. induction fuel as [|f IH]; intros s w Hst; [discriminate|].
  cbn [Pid.loop]. destruct (Pid.tick T t0 s w) as [s1 w1|s1 w1 a] eqn:E.
  - intros [= <- _]. destruct (pid_break_status T t0 s s1 w w1 E) as [H | ->].
    + left. exact H.
    + right. exact Hst.
  - apply IH. rewrite (pid_status_kept T t0 s s1 w w1 a E). exact Hst.
Qed.

Lemma mpc_break_status (T : Mpc.task) (t0 : Q) (s s' : Mpc.vars) (w w' : W)
    (site : Mpc.exit_site) (act : option action) :
  Mpc.tick T t0 s w = Mpc.Break site s' w' act ->
  (Mpc.status s' = success /\ Mpc.err_of T (Mpc.obs s') < Mpc.TOL_FINE)
  \/ (Mpc.status s' = timeout /\ Mpc.TOL_FINE <= Mpc.err_of T (Mpc.obs s')).
Proof.
  unfold Mpc.tick.
  destruct (Qltb (Mpc.err_of T (Mpc.obs s)) Mpc.TOL_FINE) eqn:He.
  { intros [= _ <- _ _]. left. split; [reflexivity|]. apply Qltb_lt. exact He. }
  destruct (time_time w) as [now w1].
  destruct (Qltb Mpc.TIMEOUT_SEC _).
  { intros [= _ <- _ _]. right. split; [reflexivity|]. apply Qltb_ge. exact He. }
  set (b := Mpc.bookkeeping _ _ s).
  destruct (mpc_bookkeeping_fields (now - t0) (Mpc.err_of T (Mpc.obs s)) s)
    as (Ho & _ & _).
  fold b in Ho.
  destruct (Mpc.state b).
  - unfold Mpc.approach_branch. destruct (env_step _ w1). discriminate.
  - unfold Mpc.lower_branch. destruct (env_step _ w1). discriminate.
  - unfold Mpc.seek_branch. destruct (env_step _ w1). discriminate.
  - unfold Mpc.seek_lift_branch. destruct (env_step _ w1). discriminate.
  - unfold Mpc.mpc_branch.
    destruct (osqp_solve _ _ _ w1) as [[v|] w2]; [|discriminate].
    destruct (env_step _ w2). rewrite Ho, He. discriminate.
Qed.

Lemma mpc_loop_status (fuel : nat) (T : Mpc.task) (t0 : Q)
    (s s' : Mpc.vars) (w w' : W) :
  Mpc.loop fuel T t0 s w = Some (s', w') ->
  (Mpc.status s' = success /\ Mpc.err_of T (Mpc.obs s') < Mpc.TOL_FINE)
  \/ (Mpc.status s' = timeout /\ Mpc.TOL_FINE <= Mpc.err_of T (Mpc.obs s')).
Proof.
  revert s w. induction fuel as [|f IH]; intros s w; [discriminate|].
  cbn [Mpc.loop]. destruct (Mpc.tick T t0 s w) as [site s1 w1 a|s1 w1 a|] eqn:E.
  - intros [= <- _]. exact (mpc_break_status T t0 s s1 w w1 site a E).
  - apply IH.
  - discriminate.
Qed.

End FinalStatus.

(** X7.  When the MPC loop ends, the status on record says exactly where the
    cube was last seen: "success" with the last observed error below
    [TOL_FINE], or "timeout" with it at or above.  When the PID loop ends
    with "success" the last observed error is below [TOL_FINE]; its only
    other status is "timeout". *)
Theorem final_status_reflects_last_error :
  (forall (L : Linalg) (W : Type) (Sim : Simulator W)
          (fuel : nat) (T : Mpc.task) (t0 : Q) (s s' : Mpc.vars) (w w' : W),
      Mpc.loop fuel T t0 s w = Some (s', w') ->
      (Mpc.status s' = success /\ Mpc.err_of T (Mpc.obs s') < Mpc.TOL_FINE)
      \/ (Mpc.status s' = timeout /\ Mpc.TOL_FINE <= Mpc.err_of T (Mpc.obs s')))
  /\
  (forall (L : Linalg) (W : Type) (Sim : Simulator W)
          (fuel : nat) (T : Pid.task) (t0 : Q) (s s' : Pid.vars) (w w' : W),
      Pid.status s = timeout ->
      Pid.loop fuel T t0 s w = Some (s', w') ->
      (Pid.status s' = success /\ Pid.err_of T (Pid.obs s') < Pid.TOL_FINE)
      \/ Pid.status s' = timeout).
Proof.
  split; intros L W Sim fuel T t0 s s' w w'.
  - apply mpc_loop_status.
  - apply pid_loop_status.
Qed.

Lemma final_status_reflects_last_error_witness :
  (exists s' w',
      Mpc.loop 10 mpc_task 0 (Mpc.init_vars obs_far) (world 0 [4; 5] [obs_near] None)
      = Some (s', w')
      /\ ((Mpc.status s' = success
           /\ Mpc.err_of mpc_task (Mpc.obs s') < Mpc.TOL_FINE)
          \/ (Mpc.status s' = timeout
              /\ Mpc.TOL_FINE <= Mpc.err_of mpc_task (Mpc.obs s'))))
  /\
  (exists s' w',
      Pid.loop 10 pid_task 0 (Pid.init_vars obs_far) (world 0 [4; 5] [obs_near] None)
      = Some (s', w')
      /\ ((Pid.status s' = success
           /\ Pid.err_of pid_task (Pid.obs s') < Pid.TOL_FINE)
          \/ Pid.status s' = timeout)).
Proof.
  split; do 2 eexists; split.
  - vm_compute. reflexivity.
  - eapply (proj1 final_status_reflects_last_error norm_up_linalg script script_sim
              10%nat mpc_task 0 (Mpc.init_vars obs_far) _
              (world 0 [4; 5] [obs_near] None)).
    vm_compute. reflexivity.
  - vm_compute. reflexivity.
  - eapply (proj2 final_status_reflects_last_error norm_up_linalg script script_sim
              10%nat pid_task 0 (Pid.init_vars obs_far) _
              (world 0 [4; 5] [obs_near] None)).
    + reflexivity.
    + vm_compute. reflexivity.
Defined.

(** ** The finish time on the record *)

Section FinishRecord.
Context {L : Linalg} {W : Type} {Sim : Simulator W}.

(** PID: a pass that goes on saw an error of at least [TOL_FINE], so it
    recorded no finish time. *)
Lemma pid_continue_no_finish (T : Pid.task) (t0 : Q) (s s' : Pid.vars) (w w' : W)
    (act : option action) :
  Pid.t_finish s = None ->
  Pid.tick T t0 s w = Pid.Continue s' w' act ->
  Pid.t_finish s' = None.
Proof.
  intros Hnone E.
  destruct (Qlt_le_dec Pid.MAX_TIME (fst (time_time w) - t0)) as [Hlt|Hle].
  { rewrite (pid_timeout_first T t0 s w Hlt) in E. discriminate E. }
  destruct (Qlt_le_dec (Pid.err_of T (Pid.obs s)) Pid.TOL_FINE) as [Hfine|Hcoarse].
  { rewrite (pid_success_in_time T t0 s w Hfine Hle) in E. discriminate E. }
  destruct (pid_tick_keeps_bookkeeping T t0 s w Hle) as (_ & _ & Hf).
  rewrite E in Hf. cbn [Pid.vars_after] in Hf. rewrite Hf.
  unfold Pid.bookkeeping. destruct (sample_loop _ _ _ _ _). cbn. rewrite Hnone.
  destruct (Qle_bool (Pid.err_of T (Pid.obs s)) 0.01) eqn:E1; [|reflexivity].
  apply Qle_bool_iff in E1. exfalso.
  apply (Qlt_not_le 0.01 Pid.TOL_FINE); [reflexivity|].
  eapply Qle_trans; eassumption.
Qed.

(** PID: past both guards a pass always goes on. *)
Lemma pid_past_guards_continue (T : Pid.task) (t0 : Q) (s : Pid.vars) (w : W) :
  Pid.TOL_FINE <= Pid.err_of T (Pid.obs s) ->
  fst (time_time w) - t0 <= Pid.MAX_TIME ->
  exists s' w' act, Pid.tick T t0 s w = Pid.Continue s' w' act.
Proof.
  intros He Ht. rewrite (pid_tick_past_guards T t0 s w He Ht).
  destruct (Pid.phase s).
  - unfold Pid.approach_branch, Pid.fallback, Pid.send.
    destruct (env_step _ _). do 3 eexists. reflexivity.
  - unfold Pid.lower_branch, Pid.fallback, Pid.send.
    destruct (env_step _ _). do 3 eexists. reflexivity.
  - unfold Pid.push_branch.
    destruct (Qltb Pid.REAPP_THRESH _); [do 3 eexists; reflexivity|].
    destruct (_ && _)%bool; [do 3 eexists; reflexivity|].
    unfold Pid.send. destruct (env_step _ _). do 3 eexists. reflexivity.
Qed.

Lemma pid_break_finish (T : Pid.task) (t0 : Q) (s s' : Pid.vars) (w w' : W) :
  Pid.t_finish s = None ->
  Pid.status s = timeout ->
  Pid.tick T t0 s w = Pid.Break s' w' ->
  match Pid.t_finish s' with
  | Some t =>
      Pid.status s' = success /\ Pid.err_of T (Pid.obs s') <= 0.01
      /\ t = fst (time_time w) - t0
  | None => Pid.status s' = timeout \/ 0.01 < Pid.err_of T (Pid.obs s')
  end.
Proof.
  intros Hnone Hst E.
  destruct (Qlt_le_dec Pid.MAX_TIME (fst (time_time w) - t0)) as [Hlt|Hle].
  { rewrite (pid_timeout_first T t0 s w Hlt) in E. injection E as <- _.
    rewrite Hnone. left. exact Hst. }
  destruct (Qlt_le_dec (Pid.err_of T (Pid.obs s)) Pid.TOL_FINE) as [Hfine|Hcoarse].
  - rewrite (pid_success_in_time T t0 s w Hfine Hle) in E. injection E as <- _.
    destruct (pid_bookkeeping_fields T (fst (time_time w) - t0) s) as (Ho & _).
    cbn [Pid.t_finish Pid.status Pid.obs Pid.set_status]. rewrite Ho.
    unfold Pid.bookkeeping. destruct (sample_loop _ _ _ _ _).
    cbn [Pid.t_finish]. rewrite Hnone.
    destruct (Qle_bool (Pid.err_of T (Pid.obs s)) 0.01) eqn:E1.
    + apply Qle_bool_iff in E1. repeat split. exact E1.
    + right. apply Qnot_le_lt. intro Hle1. apply Qle_bool_iff in Hle1. congruence.
  - exfalso.
    destruct (pid_past_guards_continue T t0 s w Hcoarse Hle) as (x & y & a & E').
    rewrite E in E'. discriminate E'.
Qed.

Lemma pid_loop_finish (fuel : nat) (T : Pid.task) (t0 : Q)
    (s s' : Pid.vars) (w w' : W) :
  Pid.t_finish s = None ->
  Pid.status s = timeout ->
  Pid.loop fuel T t0 s w = Some (s', w') ->
  match Pid.t_finish s' with
  | Some _ => Pid.status s' = success /\ Pid.err_of T (Pid.obs s') <= 0.01
  | None => Pid.status s' = timeout \/ 0.01 < Pid.err_of T (Pid.obs s')
  end.
Proof.
  revert s w. induction fuel as [|f IH]; intros s w Hnone Hst; [discriminate|].
  cbn [Pid.loop]. destruct (Pid.tick T t0 s w) as [s1 w1|s1 w1 a] eqn:E.
  - intros [= <- _].
    pose proof (pid_break_finish T t0 s s1 w w1 Hnone Hst E) as H.
    destruct (Pid.t_finish s1); [tauto | exact H].
  - apply IH.
    + exact (pid_continue_no_finish T t0 s s1 w w1 a Hnone E).
    + rewrite (pid_status_kept T t0 s s1 w w1 a E). exact Hst.
Qed.

End FinishRecord.

(** X8.  When the PID loop ends, a finish time is on record only if the
    status is "success" and the last observed error was at most 1 cm; without
    one, the status is "timeout" or the last observed error was above 1 cm
    (a success between 1 cm and [TOL_FINE] reads "NaN").  A record never
    carries both "timeout" and a finish time. *)
Theorem pid_finish_time_only_with_success :
  forall (L : Linalg) (W : Type) (Sim : Simulator W)
         (fuel : nat) (T : Pid.task) (t0 : Q) (o : observation)
         (s' : Pid.vars) (w w' : W),
    Pid.loop fuel T t0 (Pid.init_vars o) w = Some (s', w') ->
    match Pid.t_finish s' with
    | Some _ => Pid.status s' = success /\ Pid.err_of T (Pid.obs s') <= 0.01
    | None => Pid.status s' = timeout \/ 0.01 < Pid.err_of T (Pid.obs s')
    end.
Proof.
  intros L W Sim fuel T t0 o s' w w' E.
  exact (pid_loop_finish fuel T t0 (Pid.init_vars o) s' w w' eq_refl eq_refl E).
Qed.

Lemma pid_finish_time_only_with_success_witness :
  exists s' w',
    Pid.loop 10 pid_task 0 (Pid.init_vars obs_far) (world 0 [4; 5] [obs_near] None)
    = Some (s', w')
    /\ match Pid.t_finish s' with
       | Some _ =>
           Pid.status s' = success /\ Pid.err_of pid_task (Pid.obs s') <= 0.01
       | None =>
           Pid.status s' = timeout \/ 0.01 < Pid.err_of pid_task (Pid.obs s')
       end.
Proof.
  destruct (Pid.loop 10 pid_task 0 (Pid.init_vars obs_far)
              (world 0 [4; 5] [obs_near] None)) as [[s' w']|] eqn:E.
  - exists s', w'. split; [reflexivity|].
    exact (pid_finish_time_only_with_success norm_up_linalg script script_sim
             10%nat pid_task 0 obs_far s' _ w' E).
  - exfalso. vm_compute in E. discriminate E.
Defined.

(** X9.  The MPC loop never ends with a finish time on record: whatever the
    run, the fifth field of the MPC record reads "NaN". *)
Theorem mpc_record_finish_always_nan :
  forall (L : Linalg) (W : Type) (Sim : Simulator W)
         (fuel : nat) (T : Mpc.task) (t0 : Q) (o : observation)
         (s' : Mpc.vars) (w w' : W) (impl trial : string) (total : Q),
    Mpc.loop fuel T t0 (Mpc.init_vars o) w = Some (s', w') ->
    Mpc.t_finish s' = None
    /\ nth 4 (Mpc.csv_fields impl trial total s') EmptyString = "NaN"%string.
Proof.
  intros L W Sim fuel T t0 o s' w w' impl trial total E.
  assert (H : Mpc.t_finish s' = None).
  { exact (mpc_loop_finish_none fuel T t0 (Mpc.init_vars o) s' w w' eq_refl E). }
  split; [exact H|]. cbn [Mpc.csv_fields app nth]. rewrite H. reflexivity.
Qed.

Lemma mpc_record_finish_always_nan_witness :
  exists s' w',
    Mpc.loop 10 mpc_task 0 (Mpc.init_vars obs_far) (world 0 [4; 5] [obs_near] None)
    = Some (s', w')
    /\ nth 4 (Mpc.csv_fields "push_mpc" "0" 5 s') EmptyString = "NaN"%string.
Proof.
  destruct (Mpc.loop 10 mpc_task 0 (Mpc.init_vars obs_far)
              (world 0 [4; 5] [obs_near] None)) as [[s' w']|] eqn:E.
  - exists s', w'. split; [reflexivity|].
    exact (proj2 (mpc_record_finish_always_nan norm_up_linalg script script_sim
                    10%nat mpc_task 0 obs_far s' _ w' "push_mpc" "0" 5 E)).
  - exfalso. vm_compute in E. discriminate E.
Defined.

(** ** Contact lost, contact sensor absent, solver without an answer *)

Section Contact.
Context {L : Linalg} {W : Type} {Sim : Simulator W}.

Lemma contact_nonneg (o : observation) : 0 <= Mpc.contact o.
Proof.
  unfold Mpc.contact. destruct (robot0_right_hand_touch_forces o).
  - apply norm_nonneg.
  - apply Qle_refl.
Qed.

Lemma contact_absent (o : observation) :
  robot0_right_hand_touch_forces o = None -> Mpc.contact o = 0.
Proof.
  intro H. unfold Mpc.contact. rewrite H. reflexivity.
Qed.

(** What the solver is asked on a pass: the cube position, its velocity by
    finite difference over [DT], and the goal. *)
Lemma mpc_pass_in_mpc (T : Mpc.task) (t0 : Q) (s : Mpc.vars) (w : W) :
  Mpc.state s = Mpc.mpc ->
  Mpc.TOL_FINE <= Mpc.err_of T (Mpc.obs s) ->
  fst (time_time w) - t0 <= Mpc.TIMEOUT_SEC ->
  let cube_xy := xy (object_state (Mpc.obs s)) in
  let cube_v := div2 (sub2 cube_xy (Mpc.prev_xy s)) Mpc.DT in
  match fst (osqp_solve cube_xy cube_v (Mpc.GOAL_XY T) (snd (time_time w))) with
  | None => Mpc.tick T t0 s w = Mpc.Crash
  | Some _ =>
      exists s' w' act,
        Mpc.tick T t0 s w = Mpc.Continue s' w' act
        /\ Mpc.prev_xy s' = cube_xy
        /\ (Mpc.contact (Mpc.obs s') < Mpc.CONTACT_THRESH ->
            Mpc.state s' = Mpc.seek_lift)
        /\ (Mpc.CONTACT_THRESH <= Mpc.contact (Mpc.obs s') ->
            Mpc.state s' = Mpc.mpc)
  end.
Proof.
  intros Hst He Ht cube_xy cube_v.
  rewrite (mpc_tick_past_guards T t0 s w He Ht), Hst.
  set (b := Mpc.bookkeeping _ _ s).
  destruct (mpc_bookkeeping_fields (fst (time_time w) - t0)
              (Mpc.err_of T (Mpc.obs s)) s) as (Ho & Hs & Hprev).
  fold b in Ho, Hs, Hprev.
  unfold Mpc.mpc_branch. rewrite Ho, Hprev. fold cube_xy. fold cube_v.
  destruct (osqp_solve cube_xy cube_v (Mpc.GOAL_XY T) (snd (time_time w)))
    as [[v|] w0]; cbn [fst]; [|reflexivity].
  destruct (env_step _ w0) as [o w1].
  apply Qltb_ge in He. rewrite He.
  destruct (Qltb (Mpc.contact o) Mpc.CONTACT_THRESH) eqn:Ec;
    do 3 eexists; (split; [reflexivity|]); (split; [reflexivity|]);
    split; intro Hc.
  - reflexivity.
  - apply Qltb_lt in Ec. exfalso. exact (Qlt_not_le _ _ Ec Hc).
  - apply Qltb_lt in Hc. cbn in Hc. congruence.
  - cbn. congruence.
Qed.

Lemma mpc_pass_in_seek (T : Mpc.task) (t0 : Q) (s : Mpc.vars) (w : W) :
  Mpc.state s = Mpc.seek ->
  Mpc.TOL_FINE <= Mpc.err_of T (Mpc.obs s) ->
  fst (time_time w) - t0 <= Mpc.TIMEOUT_SEC ->
  exists s' w' act,
    Mpc.tick T t0 s w = Mpc.Continue s' w' act
    /\ (robot0_right_hand_touch_forces (Mpc.obs s') = None ->
        Mpc.state s' = Mpc.seek).
Proof.
  intros Hst He Ht.
  rewrite (mpc_tick_past_guards T t0 s w He Ht), Hst.
  set (b := Mpc.bookkeeping _ _ s).
  destruct (mpc_bookkeeping_fields (fst (time_time w) - t0)
              (Mpc.err_of T (Mpc.obs s)) s) as (Ho & Hs & _).
  fold b in Ho, Hs.
  unfold Mpc.seek_branch. destruct (env_step _ (snd (time_time w))) as [o w1].
  destruct (Qltb Mpc.CONTACT_THRESH (Mpc.contact o)) eqn:Ec;
    do 3 eexists; (split; [reflexivity|]); intro Hnone.
  - cbn in Hnone. rewrite (contact_absent o Hnone) in Ec. discriminate Ec.
  - cbn. congruence.
Qed.

End Contact.

(** X10.  The contact reading is never negative and is 0 when the observation
    has no touch forces.  So a seek pass whose simulation step returns no
    touch forces stays in seek.  A pass in the mpc state that gets past the
    guards and has an answer from the solver goes on: it hands over to
    seek_lift exactly when the contact reading after the step is strictly
    below the threshold (in particular when the touch forces are absent),
    stays in mpc otherwise, and remembers the cube position it observed for
    the next velocity estimate. *)
Theorem contact_loss_in_mpc :
  (forall (L : Linalg) (o : observation),
      0 <= Mpc.contact o
      /\ (robot0_right_hand_touch_forces o = None -> Mpc.contact o = 0))
  /\
  (forall (L : Linalg) (W : Type) (Sim : Simulator W)
          (T : Mpc.task) (t0 : Q) (s : Mpc.vars) (w : W),
      Mpc.state s = Mpc.seek ->
      Mpc.TOL_FINE <= Mpc.err_of T (Mpc.obs s) ->
      fst (time_time w) - t0 <= Mpc.TIMEOUT_SEC ->
      exists s' w' act,
        Mpc.tick T t0 s w = Mpc.Continue s' w' act
        /\ (robot0_right_hand_touch_forces (Mpc.obs s') = None ->
            Mpc.state s' = Mpc.seek))
  /\
  (forall (L : Linalg) (W : Type) (Sim : Simulator W)
          (T : Mpc.task) (t0 : Q) (s : Mpc.vars) (w : W) (v : vec2),
      Mpc.state s = Mpc.mpc ->
      Mpc.TOL_FINE <= Mpc.err_of T (Mpc.obs s) ->
      fst (time_time w) - t0 <= Mpc.TIMEOUT_SEC ->
      fst (osqp_solve (xy (object_state (Mpc.obs s)))
             (div2 (sub2 (xy (object_state (Mpc.obs s))) (Mpc.prev_xy s)) Mpc.DT)
             (Mpc.GOAL_XY T) (snd (time_time w))) = Some v ->
      exists s' w' act,
        Mpc.tick T t0 s w = Mpc.Continue s' w' act
        /\ Mpc.prev_xy s' = xy (object_state (Mpc.obs s))
        /\ (Mpc.contact (Mpc.obs s') < Mpc.CONTACT_THRESH ->
            Mpc.state s' = Mpc.seek_lift)
        /\ (Mpc.CONTACT_THRESH <= Mpc.contact (Mpc.obs s') ->
            Mpc.state s' = Mpc.mpc)
        /\ (robot0_right_hand_touch_forces (Mpc.obs s') = None ->
            Mpc.state s' = Mpc.seek_lift)).
Proof.
  split; [|split].
  - intros L o. split; [apply contact_nonneg | apply contact_absent].
  - intros L W Sim T t0 s w. apply mpc_pass_in_seek.
  - intros L W Sim T t0 s w v Hst He Ht Hsol.
    pose proof (mpc_pass_in_mpc T t0 s w Hst He Ht) as H. cbv zeta in H.
    rewrite Hsol in H. destruct H as (s' & w' & act & E & Hp & Hlost & Hkept).
    exists s', w', act. repeat split; try assumption.
    intro Hnone. apply Hlost. rewrite (contact_absent _ Hnone). reflexivity.
Qed.

(** X11.  The only way a pass of the MPC script stops on the exception is a
    pass in the mpc state, past the success check and the timeout guard,
    whose solve left no value. *)
Theorem mpc_crash_iff_solver_silent :
  forall (L : Linalg) (W : Type) (Sim : Simulator W)
         (T : Mpc.task) (t0 : Q) (s : Mpc.vars) (w : W),
    Mpc.tick T t0 s w = Mpc.Crash
    <-> (Mpc.state s = Mpc.mpc
         /\ Mpc.TOL_FINE <= Mpc.err_of T (Mpc.obs s)
         /\ fst (time_time w) - t0 <= Mpc.TIMEOUT_SEC
         /\ fst (osqp_solve (xy (object_state (Mpc.obs s)))
                   (div2 (sub2 (xy (object_state (Mpc.obs s))) (Mpc.prev_xy s))
                      Mpc.DT)
                   (Mpc.GOAL_XY T) (snd (time_time w))) = None).
Proof.
  intros L W Sim T t0 s w. split.
  - intro E.
    destruct (Qlt_le_dec (Mpc.err_of T (Mpc.obs s)) Mpc.TOL_FINE) as [Hfine|He].
    { rewrite (mpc_success_first T t0 s w Hfine) in E. discriminate E. }
    destruct (Qlt_le_dec Mpc.TIMEOUT_SEC (fst (time_time w) - t0)) as [Hlate|Ht].
    { rewrite (mpc_timeout_second T t0 s w He Hlate) in E. discriminate E. }
    destruct (Mpc.state s) eqn:Hst.
    + exfalso. revert E. rewrite (mpc_tick_past_guards T t0 s w He Ht), Hst.
      unfold Mpc.approach_branch. destruct (env_step _ _). discriminate.
    + exfalso. revert E. rewrite (mpc_tick_past_guards T t0 s w He Ht), Hst.
      unfold Mpc.lower_branch. destruct (env_step _ _). discriminate.
    + exfalso. revert E. rewrite (mpc_tick_past_guards T t0 s w He Ht), Hst.
      unfold Mpc.seek_branch. destruct (env_step _ _). discriminate.
    + exfalso. revert E. rewrite (mpc_tick_past_guards T t0 s w He Ht), Hst.
      unfold Mpc.seek_lift_branch. destruct (env_step _ _). discriminate.
    + repeat split; try assumption.
      pose proof (mpc_pass_in_mpc T t0 s w Hst He Ht) as H. cbv zeta in H.
      destruct (fst (osqp_solve _ _ _ _)); [|reflexivity].
      destruct H as (s' & w' & act & E' & _). rewrite E in E'. discriminate E'.
  - intros (Hst & He & Ht & Hsol).
    pose proof (mpc_pass_in_mpc T t0 s w Hst He Ht) as H. cbv zeta in H.
    rewrite Hsol in H. exact H.
Qed.

Lemma contact_loss_in_mpc_witness :
  (exists s' w' act,
      Mpc.tick mpc_task 0 (mpc_vars obs_touch Mpc.seek) (world 0 [1] [obs_far] None)
      = Mpc.Continue s' w' act
      /\ Mpc.state s' = Mpc.seek)
  /\
  (exists s' w' act,
      Mpc.tick mpc_task 0 (mpc_vars obs_touch Mpc.mpc)
        (world 0 [1] [obs_far] (Some (V2 0.4 (-0.4))))
      = Mpc.Continue s' w' act
      /\ Mpc.state s' = Mpc.seek_lift).
Proof.
  split.
  - destruct (proj1 (proj2 contact_loss_in_mpc) norm_up_linalg script script_sim
                mpc_task 0 (mpc_vars obs_touch Mpc.seek)
                (world 0 [1] [obs_far] None))
      as (s' & w' & act & E & Hnone).
    + reflexivity.
    + vm_compute. discriminate.
    + vm_compute. discriminate.
    + exists s', w', act. split; [exact E|]. apply Hnone.
      vm_compute in E. injection E as <- _ _. reflexivity.
  - destruct (proj2 (proj2 contact_loss_in_mpc) norm_up_linalg script script_sim
                mpc_task 0 (mpc_vars obs_touch Mpc.mpc)
                (world 0 [1] [obs_far] (Some (V2 0.4 (-0.4)))) (V2 0.4 (-0.4)))
      as (s' & w' & act & E & _ & _ & _ & Hnone).
    + reflexivity.
    + vm_compute. discriminate.
    + vm_compute. discriminate.
    + vm_compute. reflexivity.
    + exists s', w', act. split; [exact E|]. apply Hnone.
      vm_compute in E. injection E as <- _ _. reflexivity.
Defined.

(** ** The samples on the record *)

Section Records.
Context {L : Linalg} {W : Type} {Sim : Simulator W}.

Lemma pid_next_sample_due_later (T : Pid.task) (t0 : Q) (s : Pid.vars) (w : W) :
  fst (time_time w) - t0 <= Pid.MAX_TIME ->
  fst (time_time w) - t0 < Pid.next_sample (Pid.vars_after (Pid.tick T t0 s w)).
Proof.
  intro Ht.
  destruct (pid_tick_keeps_bookkeeping T t0 s w Ht) as (_ & Hn & _).
  rewrite Hn. unfold Pid.bookkeeping.
  pose proof (sample_loop_fuel_enough (fst (time_time w) - t0)
                (Pid.err_of T (Pid.obs s)) (Pid.next_sample s) (Pid.samples s)) as H.
  destruct (sample_loop _ _ _ _ _). exact H.
Qed.

(** MPC: a branch leaves the samples as the bookkeeping lines left them,
    unless the script stops on the exception. *)
Lemma mpc_branches_keep_samples (T : Mpc.task) (s0 b : Mpc.vars) (w : W) :
  let r := match Mpc.state b with
           | Mpc.approach => Mpc.approach_branch T b w
           | Mpc.lower => Mpc.lower_branch T b w
           | Mpc.seek => Mpc.seek_branch T b w
           | Mpc.seek_lift => Mpc.seek_lift_branch T b w
           | Mpc.mpc => Mpc.mpc_branch T b w
           end in
  r = Mpc.Crash
  \/ (Mpc.samples (Mpc.vars_after s0 r) = Mpc.samples b
      /\ Mpc.next_sample (Mpc.vars_after s0 r) = Mpc.next_sample b).
Proof.
  cbv zeta. destruct (Mpc.state b).
  - unfold Mpc.approach_branch. destruct (env_step _ w).
    destruct (Qltb _ 0.004); right; split; reflexivity.
  - unfold Mpc.lower_branch. destruct (env_step _ w).
    destruct (Qltb _ 0.002); right; split; reflexivity.
  - unfold Mpc.seek_branch. destruct (env_step _ w).
    destruct (Qltb Mpc.CONTACT_THRESH _); right; split; reflexivity.
  - unfold Mpc.seek_lift_branch. destruct (env_step _ w).
    destruct (Qltb _ 0.004); right; split; reflexivity.
  - unfold Mpc.mpc_branch. destruct (osqp_solve _ _ _ w) as [[v|] w0];
      [|left; reflexivity].
    destruct (env_step _ w0).
    destruct (Qltb _ Mpc.TOL_FINE); [right; split; reflexivity|].
    destruct (Qltb _ Mpc.CONTACT_THRESH); right; split; reflexivity.
Qed.

(** MPC: a pass leaves the samples alone or appends exactly one, labelled
    with the second that was due. *)
Lemma mpc_tick_samples (T : Mpc.task) (t0 : Q) (s : Mpc.vars) (w : W) :
  let s' := Mpc.vars_after s (Mpc.tick T t0 s w) in
  (Mpc.samples s' = Mpc.samples s /\ Mpc.next_sample s' = Mpc.next_sample s)
  \/ (Mpc.samples s'
      = Mpc.samples s ++ [(py_int (Mpc.next_sample s), Mpc.err_of T (Mpc.obs s))]
      /\ Mpc.next_sample s' = Mpc.next_sample s + 1).
Proof.
  cbv zeta. unfold Mpc.tick.
  destruct (Qltb (Mpc.err_of T (Mpc.obs s)) Mpc.TOL_FINE) eqn:He;
    [left; split; reflexivity|].
  destruct (time_time w) as [now w1].
  destruct (Qltb Mpc.TIMEOUT_SEC _); [left; split; reflexivity|].
  set (b := Mpc.bookkeeping _ _ s).
  destruct (mpc_branches_keep_samples T s b w1) as [Hc|[Hs Hn]].
  { cbv zeta in Hc. rewrite Hc. left. split; reflexivity. }
  cbv zeta in Hs, Hn. rewrite Hs, Hn.
  subst b. unfold Mpc.bookkeeping.
  destruct (Qle_bool (Mpc.next_sample s) (now - t0));
    cbn [Mpc.samples Mpc.next_sample];
    [right | left]; split; reflexivity.
Qed.

(** MPC: a pass that breaks leaves the samples alone. *)
Lemma mpc_break_samples (T : Mpc.task) (t0 : Q) (s s' : Mpc.vars) (w w' : W)
    (site : Mpc.exit_site) (act : option action) :
  Mpc.tick T t0 s w = Mpc.Break site s' w' act ->
  Mpc.samples s' = Mpc.samples s /\ Mpc.next_sample s' = Mpc.next_sample s.
Proof.
  unfold Mpc.tick.
  destruct (Qltb (Mpc.err_of T (Mpc.obs s)) Mpc.TOL_FINE) eqn:He.
  { intros [= _ <- _ _]. split; reflexivity. }
  destruct (time_time w) as [now w1].
  destruct (Qltb Mpc.TIMEOUT_SEC _).
  { intros [= _ <- _ _]. split; reflexivity. }
  set (b := Mpc.bookkeeping _ _ s).
  destruct (mpc_bookkeeping_fields (now - t0) (Mpc.err_of T (Mpc.obs s)) s)
    as (Ho & _ & _).
  fold b in Ho.
  destruct (Mpc.state b).
  - unfold Mpc.approach_branch. destruct (env_step _ w1). discriminate.
  - unfold Mpc.lower_branch. destruct (env_step _ w1). discriminate.
  - unfold Mpc.seek_branch. destruct (env_step _ w1). discriminate.
  - unfold Mpc.seek_lift_branch. destruct (env_step _ w1). discriminate.
  - unfold Mpc.mpc_branch.
    destruct (osqp_solve _ _ _ w1) as [[v|] w2]; [|discriminate].
    destruct (env_step _ w2). rewrite Ho, He. discriminate.
Qed.

Lemma seconds_from_snoc (k : nat) (n : Z) :
  seconds_from k n ++ [(n + Z.of_nat k)%Z] = seconds_from (S k) n.
Proof.
  replace (S k) with (k + 1)%nat by lia.
  rewrite <- (seconds_from_app k 1 n). reflexivity.
Qed.

Lemma mpc_sampled_below_kept (T : Mpc.task) (t0 : Q) (s : Mpc.vars) (w : W) (n : Z) :
  mpc_sampled_below n s ->
  exists n', (n <= n' <= n + 1)%Z
             /\ mpc_sampled_below n' (Mpc.vars_after s (Mpc.tick T t0 s w)).
Proof.
  intros (Hn1 & Hns & Hsec).
  destruct (mpc_tick_samples T t0 s w) as [[Hs Hn]|[Hs Hn]]; cbv zeta in Hs, Hn.
  - exists n. split; [lia|]. repeat split; [lia | congruence | congruence].
  - exists (n + 1)%Z. split; [lia|]. repeat split.
    + lia.
    + rewrite Hn, Hns. apply inject_Z_succ.
    + rewrite Hs, map_app, Hsec, Hns, py_int_inject_Z. cbn [map fst].
      replace (Z.to_nat (n + 1 - 1)) with (S (Z.to_nat (n - 1))) by lia.
      rewrite <- seconds_from_snoc. do 2 f_equal. lia.
Qed.

Lemma mpc_loop_sampled_below (fuel : nat) (T : Mpc.task) (t0 : Q)
    (s s' : Mpc.vars) (w w' : W) (n : Z) :
  mpc_sampled_below n s ->
  Mpc.loop fuel T t0 s w = Some (s', w') ->
  exists n', (n <= n' < n + Z.of_nat fuel)%Z /\ mpc_sampled_below n' s'.
Proof.
  revert s w n. induction fuel as [|f IH]; intros s w n Hinv; [discriminate|].
  cbn [Mpc.loop].
  destruct (mpc_sampled_below_kept T t0 s w n Hinv) as (n1 & Hn1 & Hinv1).
  destruct (Mpc.tick T t0 s w) as [site s1 w1 a|s1 w1 a|] eqn:E;
    cbn [Mpc.vars_after] in Hinv1.
  - intros [= <- _]. exists n. split; [lia|].
    destruct (mpc_break_samples T t0 s s1 w w1 site a E) as (Hs & Hn).
    destruct Hinv as (H1 & H2 & H3). repeat split; [lia | congruence | congruence].
  - intro El. destruct (IH s1 w1 n1 Hinv1 El) as (n' & Hn' & Hinv').
    exists n'. split; [lia | exact Hinv'].
  - discriminate.
Qed.

End Records.

(** X12.  After a PID pass that gets past the timeout guard the next sample
    is due strictly after the elapsed time of that pass: the sampling loop
    has caught up with the clock, however many seconds the pass crossed. *)
Theorem pid_sampling_catches_up :
  forall (L : Linalg) (W : Type) (Sim : Simulator W)
         (T : Pid.task) (t0 : Q) (s : Pid.vars) (w : W),
    fst (time_time w) - t0 <= Pid.MAX_TIME ->
    fst (time_time w) - t0 < Pid.next_sample (Pid.vars_after (Pid.tick T t0 s w)).
Proof.
  intros L W Sim T t0 s w. apply pid_next_sample_due_later.
Qed.

Lemma pid_sampling_catches_up_witness :
  fst (time_time (world 0 [3.4] [] None)) - 0
  < Pid.next_sample
      (Pid.vars_after (Pid.tick pid_task 0 (pid_vars obs_far Pid.approach [])
                         (world 0 [3.4] [] None))).
Proof.
  apply (pid_sampling_catches_up norm_up_linalg script script_sim).
  vm_compute. discriminate.
Defined.

(** X13.  Whenever either loop ends, the seconds on the record are exactly
    1, 2, ..., k in this order, none skipped and none repeated.  The MPC
    script appends one sample per pass at most and none on the pass that
    breaks, so a run of [fuel] passes or fewer leaves fewer than [fuel]
    samples. *)
Theorem record_seconds_are_consecutive :
  (forall (L : Linalg) (W : Type) (Sim : Simulator W)
          (fuel : nat) (T : Pid.task) (t0 : Q) (o : observation)
          (s' : Pid.vars) (w w' : W),
      Pid.loop fuel T t0 (Pid.init_vars o) w = Some (s', w') ->
      map fst (Pid.samples s')
      = seconds_from (List.length (Pid.samples s')) 1)
  /\
  (forall (L : Linalg) (W : Type) (Sim : Simulator W)
          (fuel : nat) (T : Mpc.task) (t0 : Q) (o : observation)
          (s' : Mpc.vars) (w w' : W),
      Mpc.loop fuel T t0 (Mpc.init_vars o) w = Some (s', w') ->
      map fst (Mpc.samples s')
      = seconds_from (List.length (Mpc.samples s')) 1
      /\ (List.length (Mpc.samples s') < fuel)%nat).
Proof.
  assert (Hlen : forall k n, List.length (seconds_from k n) = k).
  { induction k as [|k IH]; intro n; cbn; [reflexivity | now rewrite IH]. }
  split; intros L W Sim fuel T t0 o s' w w' E.
  - destruct (pid_loop_sampled_below fuel T t0 (Pid.init_vars o) s' w w' 1
                (pid_init_sampled_below o) E) as (n & _ & (_ & _ & Hsec)).
    assert (Hl : List.length (Pid.samples s') = Z.to_nat (n - 1)).
    { rewrite <- (length_map fst), Hsec. apply Hlen. }
    rewrite Hl. exact Hsec.
  - assert (Hinit : mpc_sampled_below 1 (Mpc.init_vars o)).
    { repeat split. reflexivity. }
    destruct (mpc_loop_sampled_below fuel T t0 (Mpc.init_vars o) s' w w' 1 Hinit E)
      as (n & Hn & (_ & _ & Hsec)).
    assert (Hl : List.length (Mpc.samples s') = Z.to_nat (n - 1)).
    { rewrite <- (length_map fst), Hsec. apply Hlen. }
    rewrite Hl. split; [exact Hsec | lia].
Qed.

Lemma record_seconds_are_consecutive_witness :
  (exists s' w',
      Pid.loop 10 pid_task 0 (Pid.init_vars obs_far) (world 0 [4; 5] [obs_near] None)
      = Some (s', w')
      /\ map fst (Pid.samples s') = seconds_from (List.length (Pid.samples s')) 1)
  /\
  (exists s' w',
      Mpc.loop 10 mpc_task 0 (Mpc.init_vars obs_far) (world 0 [4; 5] [obs_near] None)
      = Some (s', w')
      /\ (List.length (Mpc.samples s') < 10)%nat).
Proof.
  split.
  - destruct (Pid.loop 10 pid_task 0 (Pid.init_vars obs_far)
                (world 0 [4; 5] [obs_near] None)) as [[s' w']|] eqn:E.
    + exists s', w'. split; [reflexivity|].
      exact (proj1 record_seconds_are_consecutive norm_up_linalg script script_sim
               10%nat pid_task 0 obs_far s' _ w' E).
    + exfalso. vm_compute in E. discriminate E.
  - destruct (Mpc.loop 10 mpc_task 0 (Mpc.init_vars obs_far)
                (world 0 [4; 5] [obs_near] None)) as [[s' w']|] eqn:E.
    + exists s', w'. split; [reflexivity|].
      exact (proj2 (proj2 record_seconds_are_consecutive norm_up_linalg script
                      script_sim 10%nat mpc_task 0 obs_far s' _ w' E)).
    + exfalso. vm_compute in E. discriminate E.
Defined.

(** ** The stall window *)

Lemma deque_append_length (n : nat) (buf : list Q) (v : Q) :
  (List.length buf <= n)%nat ->
  List.length (deque_append n buf v) = Nat.min n (S (List.length buf)).
Proof.
  intro H. unfold deque_append.
  destruct (n <=? List.length buf)%nat eqn:E.
  - apply Nat.leb_le in E.
    destruct buf as [|h t]; cbn in *.
    + lia.
    + rewrite length_app. cbn. lia.
  - apply Nat.leb_gt in E. rewrite length_app. cbn. lia.
Qed.

Lemma deque_append_full (n : nat) (buf : list Q) (v : Q) :
  (0 < n)%nat -> List.length buf = n -> deque_append n buf v = tl buf ++ [v].
Proof.
  intros Hn H. unfold deque_append.
  rewrite <- H, Nat.leb_refl.
  destruct buf as [|h t]; [cbn in H; lia | reflexivity].
Qed.

Section Window.
Context {L : Linalg} {W : Type} {Sim : Simulator W}.

Lemma pid_send_stall_buf (a : action) (x : Pid.vars) (w : W) :
  Pid.stall_buf (Pid.vars_after (Pid.send a x w)) = Pid.stall_buf x.
Proof.
  unfold Pid.send. destruct (env_step a w). reflexivity.
Qed.

(** What a pass leaves in the stall buffer: nothing (lower handing over to
    push), the buffer untouched (timeout), or the buffer with the error of
    the pass appended. *)
Lemma pid_tick_stall_buf (T : Pid.task) (t0 : Q) (s : Pid.vars) (w : W) :
  let buf' := Pid.stall_buf (Pid.vars_after (Pid.tick T t0 s w)) in
  buf' = [] \/ buf' = Pid.stall_buf s
  \/ buf' = deque_append Pid.stall_maxlen (Pid.stall_buf s) (Pid.err_of T (Pid.obs s)).
Proof.
  cbv zeta. unfold Pid.tick. destruct (time_time w) as [now w1].
  destruct (Qltb Pid.MAX_TIME _); [right; left; reflexivity|].
  set (b := Pid.bookkeeping _ _ s).
  destruct (pid_bookkeeping_fields T (now - t0) s) as (_ & _ & _ & _ & Hb).
  fold b in Hb.
  destruct (Qltb (Pid.err_of T (Pid.obs s)) Pid.TOL_FINE).
  { right. right. exact Hb. }
  destruct (Pid.phase b).
  - unfold Pid.approach_branch, Pid.fallback. rewrite pid_send_stall_buf.
    destruct (Qltb _ 0.005); right; right; exact Hb.
  - unfold Pid.lower_branch, Pid.fallback. rewrite pid_send_stall_buf.
    destruct (Qltb _ 0.0008); [left; reflexivity | right; right; exact Hb].
  - unfold Pid.push_branch.
    destruct (Qltb Pid.REAPP_THRESH _); [right; right; exact Hb|].
    destruct (_ && _)%bool; [right; right; exact Hb|].
    rewrite pid_send_stall_buf. right. right. exact Hb.
Qed.

Lemma pid_tick_stall_bound (T : Pid.task) (t0 : Q) (s : Pid.vars) (w : W) :
  (List.length (Pid.stall_buf s) <= Pid.stall_maxlen)%nat ->
  (List.length (Pid.stall_buf (Pid.vars_after (Pid.tick T t0 s w)))
   <= Pid.stall_maxlen)%nat.
Proof.
  intro H. destruct (pid_tick_stall_buf T t0 s w) as [E|[E|E]];
    cbv zeta in E; rewrite E.
  - cbn. lia.
  - exact H.
  - rewrite deque_append_length by exact H. lia.
Qed.

Lemma pid_loop_stall_bound (fuel : nat) (T : Pid.task) (t0 : Q)
    (s s' : Pid.vars) (w w' : W) :
  (List.length (Pid.stall_buf s) <= Pid.stall_maxlen)%nat ->
  Pid.loop fuel T t0 s w = Some (s', w') ->
  (List.length (Pid.stall_buf s') <= Pid.stall_maxlen)%nat.
Proof.
  revert s w. induction fuel as [|f IH]; intros s w H; [discriminate|].
  cbn [Pid.loop]. pose proof (pid_tick_stall_bound T t0 s w H) as Hstep.
  destruct (Pid.tick T t0 s w) as [s1 w1|s1 w1 a]; cbn [Pid.vars_after] in Hstep.
  - intros [= <- _]. exact Hstep.
  - apply IH. exact Hstep.
Qed.

End Window.

(** X14.  The stall window is a bounded first-in first-out buffer: appending
    to a buffer of at most [n] entries leaves min(n, length+1) entries, and
    appending to a full one drops the oldest entry.  The PID loop keeps it at
    60 entries or fewer: a pass empties it, leaves it alone or appends its own
    error, and a trial ends with at most 60 entries in it. *)
Theorem stall_window_is_bounded :
  (forall (n : nat) (buf : list Q) (v : Q),
      (List.length buf <= n)%nat ->
      List.length (deque_append n buf v) = Nat.min n (S (List.length buf)))
  /\
  (forall (n : nat) (buf : list Q) (v : Q),
      (0 < n)%nat -> List.length buf = n ->
      deque_append n buf v = tl buf ++ [v])
  /\
  (forall (L : Linalg) (W : Type) (Sim : Simulator W)
          (T : Pid.task) (t0 : Q) (s : Pid.vars) (w : W),
      let buf' := Pid.stall_buf (Pid.vars_after (Pid.tick T t0 s w)) in
      buf' = [] \/ buf' = Pid.stall_buf s
      \/ buf' = deque_append 60 (Pid.stall_buf s) (Pid.err_of T (Pid.obs s)))
  /\
  (forall (L : Linalg) (W : Type) (Sim : Simulator W)
          (fuel : nat) (T : Pid.task) (t0 : Q) (o : observation)
          (s' : Pid.vars) (w w' : W),
      Pid.loop fuel T t0 (Pid.init_vars o) w = Some (s', w') ->
      (List.length (Pid.stall_buf s') <= 60)%nat).
Proof.
  split; [exact deque_append_length|]. split; [exact deque_append_full|]. split.
  - intros L W Sim T t0 s w. exact (pid_tick_stall_buf T t0 s w).
  - intros L W Sim fuel T t0 o s' w w' E.
    apply (pid_loop_stall_bound fuel T t0 (Pid.init_vars o) s' w w'); [|exact E].
    cbn. lia.
Qed.

Lemma stall_window_is_bounded_witness :
  List.length (deque_append 60 stalled_buf 0.2) = 60%nat
  /\ deque_append 60 stalled_buf 0.2 = tl stalled_buf ++ [0.2]
  /\ exists s' w',
       Pid.loop 10 pid_task 0 (Pid.init_vars obs_far)
         (world 0 [4; 5] [obs_near] None) = Some (s', w')
       /\ (List.length (Pid.stall_buf s') <= 60)%nat.
Proof.
  split; [|split].
  - rewrite (proj1 stall_window_is_bounded 60%nat stalled_buf 0.2).
    + reflexivity.
    + vm_compute. apply le_n.
  - apply (proj1 (proj2 stall_window_is_bounded)); [lia | reflexivity].
  - destruct (Pid.loop 10 pid_task 0 (Pid.init_vars obs_far)
                (world 0 [4; 5] [obs_near] None)) as [[s' w']|] eqn:E.
    + exists s', w'. split; [reflexivity|].
      exact (proj2 (proj2 (proj2 stall_window_is_bounded)) norm_up_linalg script
               script_sim 10%nat pid_task 0 obs_far s' _ w' E).
    + exfalso. vm_compute in E. discriminate E.
Defined.

(** ** The standoff pose *)

Lemma behind_component (c d e k : Q) :
  0 <= k -> Qabs d <= e ->
  Qabs (c - d / (e + (1 # 1000000000)) * k - c) <= k.
Proof.
  intros Hk Hd.
  assert (E : c - d / (e + (1 # 1000000000)) * k - c
              == - (d / (e + (1 # 1000000000)) * k)) by ring.
  rewrite E, Qabs_opp. apply unit_component_bound; assumption.
Qed.

Lemma behind_dot (cx cy dx dy e k : Q) :
  0 <= k -> 0 <= e ->
  (cx - dx / (e + (1 # 1000000000)) * k - cx) * dx
  + (cy - dy / (e + (1 # 1000000000)) * k - cy) * dy <= 0.
Proof.
  intros Hk He.
  assert (Hpos : 0 < e + (1 # 1000000000)) by lra.
  assert (Hinv : 0 < / (e + (1 # 1000000000))) by (apply Qinv_lt_0_compat; exact Hpos).
  set (i := / (e + (1 # 1000000000))) in *.
  assert (E : (cx - dx / (e + (1 # 1000000000)) * k - cx) * dx
              + (cy - dy / (e + (1 # 1000000000)) * k - cy) * dy
              == - (k * i * (dx * dx + dy * dy))).
  { unfold Qdiv. fold i. ring. }
  rewrite E.
  assert (H1 : 0 <= k * i) by nra.
  assert (H2 : 0 <= dx * dx + dy * dy) by nra.
  nra.
Qed.

(** X15.  The standoff pose of the approach phase (and the lift pose of the
    MPC script) lies behind the cube as seen from the goal: its offset from
    the cube has a non-positive scalar product with the direction to the
    goal, is at most the standoff distance (5 cm) along each axis, and its
    height is the table height plus the approach (or lift) height. *)
Theorem standoff_is_behind_the_cube :
  (forall (L : Linalg) (T : Pid.task) (o : observation),
      let cube := xy (object_state o) in
      let d := Pid.err_vec_of T o in
      let tgt := Pid.approach_target T o in
      z3 tgt = Pid.TABLE_Z T + Pid.APPROACH_HEIGHT
      /\ Qabs (x3 tgt - x2 cube) <= Pid.BASE_OFFSET
      /\ Qabs (y3 tgt - y2 cube) <= Pid.BASE_OFFSET
      /\ (x3 tgt - x2 cube) * x2 d + (y3 tgt - y2 cube) * y2 d <= 0)
  /\
  (forall (L : Linalg) (T : Mpc.task) (cube : vec2) (height : Q),
      let d := sub2 (Mpc.GOAL_XY T) cube in
      let tgt := Mpc.back_pose T cube height in
      z3 tgt = Mpc.TABLE_Z T + height
      /\ Qabs (x3 tgt - x2 cube) <= Mpc.BASE_OFF
      /\ Qabs (y3 tgt - y2 cube) <= Mpc.BASE_OFF
      /\ (x3 tgt - x2 cube) * x2 d + (y3 tgt - y2 cube) * y2 d <= 0).
Proof.
  split.
  - intros L T o cube d tgt. split; [reflexivity|].
    assert (Hx : Qabs (x2 d) <= Pid.err_of T o)
      by (apply norm_ge_abs; left; reflexivity).
    assert (Hy : Qabs (y2 d) <= Pid.err_of T o)
      by (apply norm_ge_abs; right; left; reflexivity).
    split; [|split].
    + apply (behind_component (x2 cube) (x2 d) (Pid.err_of T o) Pid.BASE_OFFSET);
        [discriminate | exact Hx].
    + apply (behind_component (y2 cube) (y2 d) (Pid.err_of T o) Pid.BASE_OFFSET);
        [discriminate | exact Hy].
    + apply (behind_dot (x2 cube) (y2 cube) (x2 d) (y2 d) (Pid.err_of T o)
               Pid.BASE_OFFSET); [discriminate | apply norm_nonneg].
  - intros L T cube height d tgt. split; [reflexivity|].
    assert (Hx : Qabs (x2 d) <= norm (list2 d))
      by (apply norm_ge_abs; left; reflexivity).
    assert (Hy : Qabs (y2 d) <= norm (list2 d))
      by (apply norm_ge_abs; right; left; reflexivity).
    split; [|split].
    + apply (behind_component (x2 cube) (x2 d) (norm (list2 d)) Mpc.BASE_OFF);
        [discriminate | exact Hx].
    + apply (behind_component (y2 cube) (y2 d) (norm (list2 d)) Mpc.BASE_OFF);
        [discriminate | exact Hy].
    + apply (behind_dot (x2 cube) (y2 cube) (x2 d) (y2 d) (norm (list2 d))
               Mpc.BASE_OFF); [discriminate | apply norm_nonneg].
Qed.

(** ** The lateral motion of the seek and mpc phases *)

Lemma np_clip_id (x lo hi : Q) : lo <= x -> x <= hi -> np_clip x lo hi == x.
Proof.
  intros Hlo Hhi. unfold np_clip.
  assert (Hmax : Qmax x lo == x) by (apply Q.max_l; exact Hlo).
  assert (Hmin : Qmin (Qmax x lo) hi == Qmax x lo).
  { apply Q.min_l. rewrite Hmax. exact Hhi. }
  rewrite Hmin. exact Hmax.
Qed.

Lemma toward_component (d e k : Q) :
  0 <= k -> 0 <= e -> 0 <= d / (e + (1 # 1000000000)) * k * d.
Proof.
  intros Hk He.
  assert (Hpos : 0 < e + (1 # 1000000000)) by lra.
  assert (Hinv : 0 < / (e + (1 # 1000000000))) by (apply Qinv_lt_0_compat; exact Hpos).
  set (i := / (e + (1 # 1000000000))) in *.
  assert (E : d / (e + (1 # 1000000000)) * k * d == k * i * (d * d)).
  { unfold Qdiv. fold i. ring. }
  rewrite E.
  assert (H1 : 0 <= k * i) by nra.
  assert (H2 : 0 <= d * d) by nra.
  nra.
Qed.

Lemma nth_set_each (a : action) (vx vy vz : Q) :
  (7 <= List.length a)%nat ->
  let act := set_at 6 1 (set_at 2 vz (set_at 0 vx (set_at 1 vy a))) in
  nth 0 act 0 = vx /\ nth 1 act 0 = vy /\ nth 2 act 0 = vz.
Proof.
  intro H.
  destruct a as [|a0 [|a1 [|a2 [|a3 [|a4 [|a5 [|a6 a]]]]]]]; simpl in H; try lia.
  repeat split.
Qed.

(** X16.  A pass in the seek phase that gets past the guards slides toward
    the goal: each lateral delta it sends has the sign of the corresponding
    component of the error vector and is at most [SEEK_VEL] (0.03) in
    magnitude, and the z delta is the clipped distance to the working
    height. *)
Theorem seek_slides_toward_goal :
  forall (L : Linalg) (W : Type) (Sim : Simulator W)
         (T : Mpc.task) (t0 : Q) (s : Mpc.vars) (w : W),
    Mpc.state s = Mpc.seek ->
    Mpc.TOL_FINE <= Mpc.err_of T (Mpc.obs s) ->
    fst (time_time w) - t0 <= Mpc.TIMEOUT_SEC ->
    let d := sub2 (Mpc.GOAL_XY T) (xy (object_state (Mpc.obs s))) in
    exists s' w' act,
      Mpc.tick T t0 s w = Mpc.Continue s' w' act
      /\ Qabs (nth 0 act 0) <= Mpc.SEEK_VEL /\ 0 <= nth 0 act 0 * x2 d
      /\ Qabs (nth 1 act 0) <= Mpc.SEEK_VEL /\ 0 <= nth 1 act 0 * y2 d
      /\ nth 2 act 0
         = np_clip (Mpc.WRIST_Z T - z3 (robot0_eef_pos (Mpc.obs s)))
             (- Mpc.SPEED_Z) Mpc.SPEED_Z.
Proof.
  intros L W Sim T t0 s w Hst He Ht d.
  rewrite (mpc_tick_past_guards T t0 s w He Ht), Hst.
  set (b := Mpc.bookkeeping _ _ s).
  destruct (mpc_bookkeeping_fields (fst (time_time w) - t0)
              (Mpc.err_of T (Mpc.obs s)) s) as (Ho & _ & _).
  fold b in Ho.
  unfold Mpc.seek_branch. rewrite Ho. fold d.
  match goal with
  | |- context [set_at 6 1 (set_at 2 ?vz (set_at 0 ?vx (set_at 1 ?vy _)))] =>
      destruct (nth_set_each (np_zeros action_dim) vx vy vz np_zeros_length)
        as (H0 & H1 & H2)
  end.
  destruct (env_step _ (snd (time_time w))) as [o w1].
  assert (Hx : Qabs (x2 d) <= Mpc.err_of T (Mpc.obs s))
    by (apply norm_ge_abs; left; reflexivity).
  assert (Hy : Qabs (y2 d) <= Mpc.err_of T (Mpc.obs s))
    by (apply norm_ge_abs; right; left; reflexivity).
  assert (Hn : 0 <= Mpc.err_of T (Mpc.obs s)) by apply norm_nonneg.
  destruct (Qltb Mpc.CONTACT_THRESH (Mpc.contact o));
    do 3 eexists; (split; [reflexivity|]);
    rewrite H0, H1, H2; cbn [scale2 div2 x2 y2];
    (split; [apply unit_component_bound; [discriminate | exact Hx]|]);
    (split; [apply toward_component; [discriminate | exact Hn]|]);
    (split; [apply unit_component_bound; [discriminate | exact Hy]|]);
    (split; [apply toward_component; [discriminate | exact Hn] | reflexivity]).
Qed.

Lemma seek_slides_toward_goal_witness :
  exists s' w' act,
    Mpc.tick mpc_task 0 (mpc_vars obs_far Mpc.seek) (world 0 [1] [] None)
    = Mpc.Continue s' w' act
    /\ Qabs (nth 0 act 0) <= Mpc.SEEK_VEL /\ Qabs (nth 1 act 0) <= Mpc.SEEK_VEL.
Proof.
  destruct (seek_slides_toward_goal norm_up_linalg script script_sim
              mpc_task 0 (mpc_vars obs_far Mpc.seek) (world 0 [1] [] None))
    as (s' & w' & act & E & H0 & _ & H1 & _).
  - reflexivity.
  - vm_compute. discriminate.
  - vm_compute. discriminate.
  - exists s', w', act. repeat split; assumption.
Defined.

(** X17.  On a pass in the mpc state whose solve answers with a velocity
    within the bound the problem puts on it ([V_MAX], 0.4 per axis), the clip
    on the lateral delta is idle: the pass sends the velocity times [DT]
    as it is, at most [V_MAX*DT] (under 7 mm) per axis. *)
Theorem mpc_lateral_delta_unclipped :
  forall (L : Linalg) (W : Type) (Sim : Simulator W)
         (T : Mpc.task) (t0 : Q) (s : Mpc.vars) (w : W) (v : vec2),
    Mpc.state s = Mpc.mpc ->
    Mpc.TOL_FINE <= Mpc.err_of T (Mpc.obs s) ->
    fst (time_time w) - t0 <= Mpc.TIMEOUT_SEC ->
    fst (osqp_solve (xy (object_state (Mpc.obs s)))
           (div2 (sub2 (xy (object_state (Mpc.obs s))) (Mpc.prev_xy s)) Mpc.DT)
           (Mpc.GOAL_XY T) (snd (time_time w))) = Some v ->
    Qabs (x2 v) <= mpc_V_MAX -> Qabs (y2 v) <= mpc_V_MAX ->
    exists s' w' act,
      Mpc.tick T t0 s w = Mpc.Continue s' w' act
      /\ nth 0 act 0 == x2 v * Mpc.DT /\ nth 1 act 0 == y2 v * Mpc.DT
      /\ Qabs (nth 0 act 0) <= mpc_V_MAX * Mpc.DT
      /\ Qabs (nth 1 act 0) <= mpc_V_MAX * Mpc.DT.
Proof.
  intros L W Sim T t0 s w v Hst He Ht Hsol Hvx Hvy.
  rewrite (mpc_tick_past_guards T t0 s w He Ht), Hst.
  set (b := Mpc.bookkeeping _ _ s).
  destruct (mpc_bookkeeping_fields (fst (time_time w) - t0)
              (Mpc.err_of T (Mpc.obs s)) s) as (Ho & _ & Hprev).
  fold b in Ho, Hprev.
  unfold Mpc.mpc_branch. rewrite Ho, Hprev.
  destruct (osqp_solve _ _ _ (snd (time_time w))) as [sol w0].
  cbn [fst] in Hsol. subst sol.
  match goal with
  | |- context [set_at 6 1 (set_at 2 ?vz (set_at 0 ?vx (set_at 1 ?vy _)))] =>
      destruct (nth_set_each (np_zeros action_dim) vx vy vz np_zeros_length)
        as (H0 & H1 & _)
  end.
  destruct (env_step _ w0) as [o w1].
  apply Qltb_ge in He. rewrite He.
  assert (Bx : Qabs (x2 v * Mpc.DT) <= mpc_V_MAX * Mpc.DT).
  { rewrite Qabs_Qmult. apply Qmult_le_compat_r; [exact Hvx | discriminate]. }
  assert (By : Qabs (y2 v * Mpc.DT) <= mpc_V_MAX * Mpc.DT).
  { rewrite Qabs_Qmult. apply Qmult_le_compat_r; [exact Hvy | discriminate]. }
  assert (Cx : np_clip (x2 v * Mpc.DT) (- Mpc.SPEED_XY) Mpc.SPEED_XY == x2 v * Mpc.DT).
  { apply Qabs_Qle_condition in Bx. destruct Bx as [Bl Bu].
    apply np_clip_id.
    - eapply Qle_trans; [|exact Bl]. discriminate.
    - eapply Qle_trans; [exact Bu|]. discriminate. }
  assert (Cy : np_clip (y2 v * Mpc.DT) (- Mpc.SPEED_XY) Mpc.SPEED_XY == y2 v * Mpc.DT).
  { apply Qabs_Qle_condition in By. destruct By as [Bl Bu].
    apply np_clip_id.
    - eapply Qle_trans; [|exact Bl]. discriminate.
    - eapply Qle_trans; [exact Bu|]. discriminate. }
  destruct (Qltb (Mpc.contact o) Mpc.CONTACT_THRESH);
    do 3 eexists; (split; [reflexivity|]);
    rewrite H0, H1; cbn [clip2 scale2 x2 y2];
    (split; [exact Cx|]); (split; [exact Cy|]);
    (split; [rewrite Cx; exact Bx | rewrite Cy; exact By]).
Qed.

Lemma mpc_lateral_delta_unclipped_witness :
  exists s' w' act,
    Mpc.tick mpc_task 0 (mpc_vars obs_touch Mpc.mpc)
      (world 0 [1] [obs_touch] (Some (V2 0.4 (-0.4))))
    = Mpc.Continue s' w' act
    /\ nth 0 act 0 == 0.4 * Mpc.DT /\ nth 1 act 0 == -0.4 * Mpc.DT.
Proof.
  destruct (mpc_lateral_delta_unclipped norm_up_linalg script script_sim
              mpc_task 0 (mpc_vars obs_touch Mpc.mpc)
              (world 0 [1] [obs_touch] (Some (V2 0.4 (-0.4)))) (V2 0.4 (-0.4)))
    as (s' & w' & act & E & H0 & H1 & _).
  - reflexivity.
  - vm_compute. discriminate.
  - vm_compute. discriminate.
  - vm_compute. reflexivity.
  - vm_compute. discriminate.
  - vm_compute. discriminate.
  - exists s', w', act. repeat split; assumption.
Defined.
